(** * Conversation synchronisation in [App.tsx]

    A shallow embedding of the session logic of the chat single-page
    application: the React state of the [App] component, its event handlers
    ([startNewConversation], [loadConversation], [handleSend]), the
    re-hydration effect that follows the active conversation, and the
    continuation of [handleSend] that runs when the [fetch] settles.

    React state is modelled by explicit state passing: a handler is a function
    from the state of the render it was created in to the state after its
    batched updates.  The values a [handleSend] closure keeps across its
    [await] are carried in an [InFlight] record. *)

From Stdlib Require Import List NArith Bool String Ascii Arith Lia.
Import ListNotations.

(** ** JavaScript strings *)

Module Js.

(** A JavaScript string is a sequence of UTF-16 code units. *)
Definition jsstring := list N.

(** String literals of the source (all of them are ASCII). *)
Definition str (s : string) : jsstring :=
  map N_of_ascii (list_ascii_of_string s).

(** [a === b] on strings. *)
Fixpoint string_eqb (a b : jsstring) : bool :=
  match a, b with
  | [], [] => true
  | x :: a', y :: b' => N.eqb x y && string_eqb a' b'
  | _, _ => false
  end.

(** Truthiness of a string: only the empty string is falsy. *)
Definition truthy (s : jsstring) : bool :=
  match s with
  | [] => false
  | _ :: _ => true
  end.

(** [a || b] where both sides are strings. *)
Definition or_else (a b : jsstring) : jsstring :=
  if truthy a then a else b.

(** [v + s] where [v] is a string or [undefined] and [s] a string:
    [undefined] is converted to the text "undefined". *)
Definition plus_string (v : option jsstring) (s : jsstring) : jsstring :=
  match v with
  | Some x => x ++ s
  | None => str "undefined" ++ s
  end.

(** The code units that [String.prototype.trim] strips: ECMAScript
    WhiteSpace and LineTerminator. *)
Definition isWhiteSpace (u : N) : bool :=
  (((9 <=? u) && (u <=? 13))       (* TAB, LF, VT, FF, CR *)
  || (u =? 32)                     (* SPACE *)
  || (u =? 160)                    (* NO-BREAK SPACE *)
  || (u =? 5760)                   (* OGHAM SPACE MARK *)
  || ((8192 <=? u) && (u <=? 8202)) (* EN QUAD .. HAIR SPACE *)
  || (u =? 8232) || (u =? 8233)    (* LINE / PARAGRAPH SEPARATOR *)
  || (u =? 8239) || (u =? 8287)    (* NARROW NO-BREAK / MEDIUM MATH SPACE *)
  || (u =? 12288)                  (* IDEOGRAPHIC SPACE *)
  || (u =? 65279)                  (* ZERO WIDTH NO-BREAK SPACE *)
  )%N.

Fixpoint trimStart (s : jsstring) : jsstring :=
  match s with
  | [] => []
  | u :: s' => if isWhiteSpace u then trimStart s' else s
  end.

Definition trimEnd (s : jsstring) : jsstring :=
  rev (trimStart (rev s)).

Definition trim (s : jsstring) : jsstring :=
  trimEnd (trimStart s).

(** [s.substring(a, b)]: the code units from index [min a b] up to, and
    not including, index [max a b], clamped to the length of [s]. *)
Definition substring (a b : nat) (s : jsstring) : jsstring :=
  firstn (Nat.max a b - Nat.min a b) (skipn (Nat.min a b) s).

End Js.

Import Js.

(** ** Data types *)

Inductive Role : Type :=
| user
| assistant.

(** [type N8nMessage = { id; role; content }] *)
Record N8nMessage : Type := mkMessage {
  msg_id : jsstring;
  msg_role : Role;
  msg_content : jsstring
}.

(** [type ConversationHistory = { id; title; messages }] *)
Record ConversationHistory : Type := mkConversation {
  conv_id : jsstring;
  conv_title : jsstring;
  conv_messages : list N8nMessage
}.

(** [{ ...conv, messages: m }] *)
Definition withMessages (m : list N8nMessage) (conv : ConversationHistory)
  : ConversationHistory :=
  {| conv_id := conv_id conv; conv_title := conv_title conv; conv_messages := m |}.

(** The [useState] cells of [App] that the session logic reads or writes.
    ([canScrollLeft] and [canScrollRight] only mirror the DOM scroll position
    of the suggestion bar and are left out.) *)
Record AppState : Type := mkState {
  messages : list N8nMessage;
  text : jsstring;
  isLoading : bool;
  error : option jsstring;
  isSidebarOpen : bool;
  hasInteracted : bool;
  conversationHistory : list ConversationHistory;
  activeConversationId : option jsstring   (* string | null *)
}.

(** The initial values given to [useState]. *)
Definition initialState : AppState :=
  {| messages := []; text := []; isLoading := false; error := None;
     isSidebarOpen := false; hasInteracted := false;
     conversationHistory := []; activeConversationId := None |}.

(** State setters. *)
Definition setMessages (v : list N8nMessage) (st : AppState) : AppState :=
  mkState v (text st) (isLoading st) (error st) (isSidebarOpen st)
          (hasInteracted st) (conversationHistory st) (activeConversationId st).

Definition setText (v : jsstring) (st : AppState) : AppState :=
  mkState (messages st) v (isLoading st) (error st) (isSidebarOpen st)
          (hasInteracted st) (conversationHistory st) (activeConversationId st).

Definition setIsLoading (v : bool) (st : AppState) : AppState :=
  mkState (messages st) (text st) v (error st) (isSidebarOpen st)
          (hasInteracted st) (conversationHistory st) (activeConversationId st).

Definition setError (v : option jsstring) (st : AppState) : AppState :=
  mkState (messages st) (text st) (isLoading st) v (isSidebarOpen st)
          (hasInteracted st) (conversationHistory st) (activeConversationId st).

Definition setIsSidebarOpen (v : bool) (st : AppState) : AppState :=
  mkState (messages st) (text st) (isLoading st) (error st) v
          (hasInteracted st) (conversationHistory st) (activeConversationId st).

Definition setHasInteracted (v : bool) (st : AppState) : AppState :=
  mkState (messages st) (text st) (isLoading st) (error st) (isSidebarOpen st)
          v (conversationHistory st) (activeConversationId st).

Definition setConversationHistory (v : list ConversationHistory) (st : AppState)
  : AppState :=
  mkState (messages st) (text st) (isLoading st) (error st) (isSidebarOpen st)
          (hasInteracted st) v (activeConversationId st).

Definition setActiveConversationId (v : option jsstring) (st : AppState)
  : AppState :=
  mkState (messages st) (text st) (isLoading st) (error st) (isSidebarOpen st)
          (hasInteracted st) (conversationHistory st) v.

(** A [string | null] used as a condition: [null] and the empty string are
    falsy; a truthy value is a non-empty string. *)
Definition truthyId (a : option jsstring) : option jsstring :=
  match a with
  | Some (u :: s) => Some (u :: s)
  | _ => None
  end.

(** [Object.is] on two [string | null] values, as React compares the
    dependencies of an effect. *)
Definition sameId (a b : option jsstring) : bool :=
  match a, b with
  | None, None => true
  | Some x, Some y => string_eqb x y
  | _, _ => false
  end.

(** [conversationHistory.find((c) => c.id === a)] *)
Definition findConversation (a : jsstring) (h : list ConversationHistory)
  : option ConversationHistory :=
  find (fun c => string_eqb (conv_id c) a) h.

(** ** The re-hydration effect

    [useEffect(..., [activeConversationId, conversationHistory])]: the
    visible log follows the active conversation; a truthy id with no entry
    leaves the log as it is. *)
Definition activeConversationEffect (st : AppState) : AppState :=
  match truthyId (activeConversationId st) with
  | Some a =>
      match findConversation a (conversationHistory st) with
      | Some conv => setMessages (conv_messages conv) st
      | None => st
      end
  | None => setMessages [] st
  end.

(** ** Handlers without a request *)

Definition startNewConversation (st : AppState) : AppState :=
  setIsSidebarOpen false
    (setHasInteracted true
      (setError None
        (setIsLoading false
          (setText []
            (setMessages []
              (setActiveConversationId None st)))))).

Definition loadConversation (convId : jsstring) (st : AppState) : AppState :=
  setIsSidebarOpen false
    (setHasInteracted true
      (setActiveConversationId (Some convId) st)).

Definition toggleSidebar (st : AppState) : AppState :=
  setHasInteracted true (setIsSidebarOpen (negb (isSidebarOpen st)) st).

(** ** [handleSend] *)

(** [import.meta.env.VITE_N8N_CHAT_API || "YOUR_FALLBACK_WEBHOOK_URL"];
    the environment variable is a string or undefined. *)
Definition N8N_CHAT_API (env : option jsstring) : jsstring :=
  match env with
  | Some v => or_else v (str "YOUR_FALLBACK_WEBHOOK_URL")
  | None => str "YOUR_FALLBACK_WEBHOOK_URL"
  end.

(** [!N8N_CHAT_API || N8N_CHAT_API === "YOUR_FALLBACK_WEBHOOK_URL"] *)
Definition notConfigured (env : option jsstring) : bool :=
  negb (truthy (N8N_CHAT_API env))
  || string_eqb (N8N_CHAT_API env) (str "YOUR_FALLBACK_WEBHOOK_URL").

Definition userMessage (freshId messageContent : jsstring) : N8nMessage :=
  {| msg_id := freshId; msg_role := user; msg_content := messageContent |}.

Definition loadingMessage : N8nMessage :=
  {| msg_id := str "loader"; msg_role := assistant; msg_content := str "..." |}.

(** The base log a submission starts from:
    [activeConversationId
       ? conversationHistory.find(...)?.messages || []
       : messages]. *)
Definition currentMessages (st : AppState) : list N8nMessage :=
  match truthyId (activeConversationId st) with
  | Some a =>
      match findConversation a (conversationHistory st) with
      | Some conv => conv_messages conv
      | None => []
      end
  | None => messages st
  end.

(** What a [handleSend] call keeps in its closure while the request is
    awaited: the active id of the render it was created in, and the log it
    sent. *)
Record InFlight : Type := mkInFlight {
  snapshotActiveId : option jsstring;
  n8nMessageList : list N8nMessage
}.

(** The synchronous part of [handleSend], up to the [await fetch].  [freshId]
    is the value of the [nanoid()] call.  The second component is the request
    issued, if any. *)
Definition handleSend (env : option jsstring) (freshId messageContent : jsstring)
           (st : AppState) : AppState * option InFlight :=
  if negb (truthy (trim messageContent)) || isLoading st then (st, None)
  else
    let st1 := setText [] (setError None (setHasInteracted true st)) in
    let userMsg := userMessage freshId messageContent in
    let outbound := currentMessages st ++ [userMsg] in
    let st2 :=
      setIsLoading true
        (setMessages (messages st1 ++ [userMsg; loadingMessage]) st1) in
    if notConfigured env then
      (setIsLoading false
         (setMessages outbound
            (setError (Some (str "Chat service is not configured.")) st2)),
       None)
    else
      (st2,
       Some {| snapshotActiveId := activeConversationId st;
               n8nMessageList := outbound |}).

(** [handleSubmit] sends the text of the input field. *)
Definition handleSubmit (env : option jsstring) (freshId : jsstring)
           (st : AppState) : AppState * option InFlight :=
  handleSend env freshId (text st) st.

(** ** How a request settles *)

(** A value caught by [catch (err)]: an [Error] with its message, or
    anything else. *)
Inductive Thrown : Type :=
| ErrorObject (message : jsstring)
| NotAnError.

(** The outcome of [await response.json()]: it throws, or yields an object
    whose [messages] field is an array or is missing. *)
Inductive Body : Type :=
| JsonThrows (e : Thrown)
| Json (resultMessages : option (list N8nMessage)).

(** The outcome of [await fetch(...)]: it rejects, or yields a response. *)
Inductive FetchOutcome : Type :=
| Rejects (e : Thrown)
| Responds (ok : bool) (statusText : jsstring) (body : Body).

(** The [try] block up to the check of [result.messages]: the returned
    sequence, or the value thrown. *)
Definition exchange (o : FetchOutcome) : Thrown + list N8nMessage :=
  match o with
  | Rejects e => inl e
  | Responds false statusText _ =>
      inl (ErrorObject (str "Network response was not ok: " ++ statusText))
  | Responds true _ (JsonThrows e) => inl e
  | Responds true _ (Json None) =>
      inl (ErrorObject (str "Invalid response structure from n8n"))
  | Responds true _ (Json (Some r)) => inr r
  end.

(** [err instanceof Error ? err.message : "An unknown error occurred."] *)
Definition errorMessage (e : Thrown) : jsstring :=
  match e with
  | ErrorObject m => m
  | NotAnError => str "An unknown error occurred."
  end.

(** [result.messages[0]?.content.substring(0, 30) + "..." || "New Chat"];
    [+] binds tighter than [||]. *)
Definition newTitle (resultMessages : list N8nMessage) : jsstring :=
  or_else
    (plus_string
       (option_map (fun m => substring 0 30 (msg_content m))
                   (nth_error resultMessages 0))
       (str "..."))
    (str "New Chat").

(** The function mapped over the store for an existing conversation:
    [conv.id === activeConversationId
       ? { ...conv, messages: result.messages } : conv]. *)
Definition replaceMessagesOf (a : jsstring) (resultMessages : list N8nMessage)
           (conv : ConversationHistory) : ConversationHistory :=
  if string_eqb (conv_id conv) a
  then withMessages resultMessages conv
  else conv.

(** The updater passed to [setConversationHistory], together with the
    [setActiveConversationId] call it makes.  [activeId] is the id captured
    by the closure; [newConvId] is the value of the [nanoid()] call. *)
Definition reconcile (activeId : option jsstring) (newConvId : jsstring)
           (resultMessages : list N8nMessage) (st : AppState) : AppState :=
  match truthyId activeId with
  | Some a =>
      setConversationHistory
        (map (replaceMessagesOf a resultMessages) (conversationHistory st))
        st
  | None =>
      setActiveConversationId (Some newConvId)
        (setConversationHistory
           ({| conv_id := newConvId;
               conv_title := newTitle resultMessages;
               conv_messages := resultMessages |} :: conversationHistory st)
           st)
  end.

(** The success path after the check of [result.messages]. *)
Definition handleSend_resolved (newConvId : jsstring)
           (resultMessages : list N8nMessage) (fl : InFlight) (st : AppState)
  : AppState :=
  reconcile (snapshotActiveId fl) newConvId resultMessages
            (setMessages resultMessages st).

(** The [catch] block. *)
Definition handleSend_failed (e : Thrown) (fl : InFlight) (st : AppState)
  : AppState :=
  setMessages (n8nMessageList fl)
    (setError
       (Some (str "Sorry, I had trouble connecting: " ++ errorMessage e)) st).

(** The part of [handleSend] after the [await], with its [finally]. *)
Definition handleSend_settle (newConvId : jsstring) (o : FetchOutcome)
           (fl : InFlight) (st : AppState) : AppState :=
  setIsLoading false
    (match exchange o with
     | inr r => handleSend_resolved newConvId r fl st
     | inl e => handleSend_failed e fl st
     end).

(** ** The session: state, pending requests, events *)

(** The component state together with the requests that have been issued and
    have not settled yet, oldest first. *)
Record Session : Type := mkSession {
  app : AppState;
  inFlight : list InFlight
}.

Definition initialSession : Session :=
  {| app := initialState; inFlight := [] |}.

(** What can happen to a session.  [Send] stands for both callers of
    [handleSend]: [handleSubmit] (the content is the text typed) and
    [handleSuggestionClick].  [Settle k] is the [k]-th pending request
    settling with the given outcome.  The ids are the values of the
    [nanoid()] calls made on the way. *)
Inductive Event : Type :=
| StartNewConversation
| LoadConversation (convId : jsstring)
| ToggleSidebar
| TypeText (t : jsstring)
| Send (freshId messageContent : jsstring)
| Settle (k : nat) (newConvId : jsstring) (o : FetchOutcome).

(** The render that follows a batch of updates, and its effect: the
    re-hydration effect runs when one of its dependencies changed, that is
    when [activeConversationId] is a different value or
    [conversationHistory] a different array. *)
Definition commit (before : AppState) (historyReplaced : bool)
           (after : AppState) : AppState :=
  if historyReplaced
     || negb (sameId (activeConversationId before) (activeConversationId after))
  then activeConversationEffect after
  else after.

(** Whether the request ends on the path that calls
    [setConversationHistory]. *)
Definition succeeds (o : FetchOutcome) : bool :=
  match exchange o with
  | inr _ => true
  | inl _ => false
  end.

(** A request settles: the rest of [handleSend] runs, then the render is
    committed. *)
Definition settleAndCommit (newConvId : jsstring) (o : FetchOutcome)
           (fl : InFlight) (st : AppState) : AppState :=
  commit st (succeeds o) (handleSend_settle newConvId o fl st).

Definition dropNth {A : Type} (k : nat) (l : list A) : list A :=
  firstn k l ++ skipn (S k) l.

Definition step (env : option jsstring) (w : Session) (e : Event) : Session :=
  match e with
  | StartNewConversation =>
      {| app := commit (app w) false (startNewConversation (app w));
         inFlight := inFlight w |}
  | LoadConversation convId =>
      {| app := commit (app w) false (loadConversation convId (app w));
         inFlight := inFlight w |}
  | ToggleSidebar =>
      {| app := toggleSidebar (app w); inFlight := inFlight w |}
  | TypeText t =>
      {| app := setText t (app w); inFlight := inFlight w |}
  | Send freshId messageContent =>
      let (st, request) := handleSend env freshId messageContent (app w) in
      {| app := commit (app w) false st;
         inFlight := inFlight w ++ match request with
                                   | Some fl => [fl]
                                   | None => []
                                   end |}
  | Settle k newConvId o =>
      match nth_error (inFlight w) k with
      | Some fl =>
          {| app := settleAndCommit newConvId o fl (app w);
             inFlight := dropNth k (inFlight w) |}
      | None => w
      end
  end.

Definition run (env : option jsstring) (trace : list Event) (w : Session)
  : Session :=
  fold_left (step env) trace w.

(** The sequences the adapter returned along a trace. *)
Definition returnedSequence (e : Event) : list (list N8nMessage) :=
  match e with
  | Settle _ _ o =>
      match exchange o with
      | inr r => [r]
      | inl _ => []
      end
  | _ => []
  end.

Definition returnedSequences (trace : list Event) : list (list N8nMessage) :=
  flat_map returnedSequence trace.

(** ** Views used in the statements *)

(** The state an accepted [handleSend] leaves before it looks at the
    endpoint: input cleared, error cleared, user turn and placeholder appended
    to the visible log, loading flag set. *)
Definition optimisticState (freshId messageContent : jsstring) (st : AppState)
  : AppState :=
  setIsLoading true
    (setMessages
       (messages st ++ [userMessage freshId messageContent; loadingMessage])
       (setText [] (setError None (setHasInteracted true st)))).

Definition requestOf (freshId messageContent : jsstring) (st : AppState)
  : InFlight :=
  {| snapshotActiveId := activeConversationId st;
     n8nMessageList := currentMessages st ++ [userMessage freshId messageContent] |}.

(** Every log in the store satisfies [P]. *)
Definition storeSatisfies (P : list N8nMessage -> Prop) (st : AppState) : Prop :=
  Forall (fun conv => P (conv_messages conv)) (conversationHistory st).

(** ** What is rendered *)

(** The [suggestions] array. *)
Definition suggestions : list jsstring :=
  [str "How is the onboarding process at Helios?";
   str "What is Helios about?";
   str "What are the main benefits or working at Helios?"].

(** [handleSuggestionClick] sends the suggestion clicked. *)
Definition handleSuggestionClick (env : option jsstring)
           (freshId suggestion : jsstring) (st : AppState)
  : AppState * option InFlight :=
  handleSend env freshId suggestion st.

(** The submit button: [disabled={isLoading || !text.trim()}]. *)
Definition submitDisabled (st : AppState) : bool :=
  isLoading st || negb (truthy (trim (text st))).

(** The suggestion bar is rendered when
    [messages.length === 0 && !isLoading]. *)
Definition showsSuggestions (st : AppState) : bool :=
  (List.length (messages st) =? 0) && negb (isLoading st).

(** [s.split(sep)] for a one-unit separator: the pieces between the
    occurrences of [sep]; the empty string gives one empty piece. *)
Fixpoint splitOn (sep : N) (s : jsstring) : list jsstring :=
  match s with
  | [] => [[]]
  | u :: s' =>
      if N.eqb u sep then [] :: splitOn sep s'
      else match splitOn sep s' with
           | piece :: pieces => (u :: piece) :: pieces
           | [] => [[u]]
           end
  end.

(** The text that pieces spell when each but the last is followed by
    [sep]. *)
Fixpoint joinWith (sep : N) (pieces : list jsstring) : jsstring :=
  match pieces with
  | [] => []
  | [piece] => piece
  | piece :: rest => piece ++ sep :: joinWith sep rest
  end.

(** What [messages.map((msg) => ...)] renders for one message: the typing
    indicator for the id "loader", otherwise a bubble with one [span] and
    [br] per line of [msg.content.split("\n")]. *)
Inductive Rendered : Type :=
| TypingIndicator
| MessageBubble (role : Role) (lines : list jsstring).

Definition renderMessage (msg : N8nMessage) : Rendered :=
  if string_eqb (msg_id msg) (str "loader") then TypingIndicator
  else MessageBubble (msg_role msg) (splitOn 10 (msg_content msg)).

(** ** Traces *)

(** The sidebar offers the store entries only: every [loadConversation] of
    the trace is called with the id of an entry the store has then. *)
Fixpoint sidebarLoads (env : option jsstring) (trace : list Event)
         (w : Session) : Prop :=
  match trace with
  | [] => True
  | e :: rest =>
      match e with
      | LoadConversation convId =>
          In convId (map conv_id (conversationHistory (app w)))
      | _ => True
      end
      /\ sidebarLoads env rest (step env w e)
  end.

(** The ids [nanoid()] gives to the success paths of a trace. *)
Definition newConvIdOf (e : Event) : list jsstring :=
  match e with
  | Settle _ newConvId _ => [newConvId]
  | _ => []
  end.

Definition newConvIds (trace : list Event) : list jsstring :=
  flat_map newConvIdOf trace.

(** No message has the id that is rendered as the typing indicator. *)
Definition loaderFree (l : list N8nMessage) : Prop :=
  Forall (fun m => msg_id m <> str "loader") l.

(** Neither [nanoid()] nor the adapter produces the id "loader". *)
Definition eventLoaderFree (e : Event) : Prop :=
  match e with
  | Send freshId _ => freshId <> str "loader"
  | Settle _ _ o => forall r, exchange o = inr r -> loaderFree r
  | _ => True
  end.

(** Nothing stored, nothing sent, and nothing shown while not loading has
    the id "loader". *)
Definition loaderClean (w : Session) : Prop :=
  storeSatisfies loaderFree (app w)
  /\ Forall (fun fl => loaderFree (n8nMessageList fl)) (inFlight w)
  /\ (isLoading (app w) = false -> loaderFree (messages (app w))).

(** The id and the title of an entry. *)
Definition idAndTitle (conv : ConversationHistory) : jsstring * jsstring :=
  (conv_id conv, conv_title conv).

(** ** The component before [handleSend] took the text as an argument

    [handleSubmit] of the earlier revision with the sidebar
    (unnamed/part_000): the text is read from the state and cleared after
    the optimistic update. *)
Module Previous.

Definition handleSubmit (env : option jsstring) (freshId : jsstring)
           (st : AppState) : AppState * option InFlight :=
  if negb (truthy (trim (text st))) || isLoading st then (st, None)
  else
    let st1 := setError None (setHasInteracted true st) in
    let userMsg := userMessage freshId (text st) in
    let outbound := currentMessages st ++ [userMsg] in
    let st2 :=
      setIsLoading true
        (setText []
           (setMessages (messages st1 ++ [userMsg; loadingMessage]) st1)) in
    if notConfigured env then
      (setIsLoading false
         (setMessages outbound
            (setError (Some (str "Chat service is not configured.")) st2)),
       None)
    else
      (st2,
       Some {| snapshotActiveId := activeConversationId st;
               n8nMessageList := outbound |}).

End Previous.

(** ** The component without conversations

    The first revision (unnamed/part_001): one log, no store.  Its
    [handleSubmit] sends the visible log with the user turn appended. *)
Module Simple.

Record State : Type := mkState {
  messages : list N8nMessage;
  text : jsstring;
  isLoading : bool;
  error : option jsstring
}.

Definition handleSubmit (env : option jsstring) (freshId : jsstring)
           (st : State) : State * option (list N8nMessage) :=
  if negb (truthy (trim (text st))) || isLoading st then (st, None)
  else
    let userMsg := userMessage freshId (text st) in
    let outbound := messages st ++ [userMsg] in
    if notConfigured env then
      ({| messages := outbound; text := []; isLoading := false;
          error := Some (str "Chat service is not configured. Please contact the administrator.") |},
       None)
    else
      ({| messages := outbound ++ [loadingMessage]; text := [];
          isLoading := true; error := None |},
       Some outbound).

(** The part of [handleSubmit] after the [await], with its [finally]. *)
Definition handleSubmit_settle (o : FetchOutcome) (outbound : list N8nMessage)
           (st : State) : State :=
  match exchange o with
  | inr r =>
      {| messages := r; text := text st; isLoading := false;
         error := error st |}
  | inl e =>
      {| messages := outbound; text := text st; isLoading := false;
         error := Some (str "Sorry, I had trouble connecting: "
                        ++ errorMessage e) |}
  end.

End Simple.

(** The cells the first revision already had. *)
Definition simpleView (st : AppState) : Simple.State :=
  {| Simple.messages := messages st; Simple.text := text st;
     Simple.isLoading := isLoading st; Simple.error := error st |}.

(** * Properties *)

(** Reads a field through the setters, and nothing else. *)
Ltac simpl_state :=
  cbn [messages text isLoading error isSidebarOpen hasInteracted
       conversationHistory activeConversationId
       setMessages setText setIsLoading setError setIsSidebarOpen
       setHasInteracted setConversationHistory setActiveConversationId
       app inFlight] in *.

(** ** Strings *)

Section StringFacts.

Lemma string_eqb_refl (a : jsstring) : string_eqb a a = true.
Proof.
  induction a as [|u a IH]; simpl; [reflexivity|].
  now rewrite N.eqb_refl, IH.
Qed.

Lemma string_eqb_eq (a b : jsstring) : string_eqb a b = true <-> a = b.
Proof.
  split; [|intros ->; apply string_eqb_refl].
  revert b; induction a as [|u a IH]; intros [|v b]; simpl;
    try discriminate; [reflexivity|].
  intros H; apply andb_true_iff in H as [Hu Ha].
  apply N.eqb_eq in Hu as ->.
  now rewrite (IH _ Ha).
Qed.

Lemma string_eqb_neq (a b : jsstring) : a <> b -> string_eqb a b = false.
Proof.
  intros Hne; destruct (string_eqb a b) eqn:E; [|reflexivity].
  now apply string_eqb_eq in E.
Qed.

Lemma truthy_nonempty (s : jsstring) : truthy s = true <-> s <> [].
Proof. destruct s; simpl; split; congruence. Qed.

Lemma truthy_app_r (s t : jsstring) : truthy t = true -> truthy (s ++ t) = true.
Proof. destruct s; simpl; auto. Qed.

Lemma trimStart_blank (s : jsstring) :
  trimStart s = [] <-> forallb isWhiteSpace s = true.
Proof.
  induction s as [|u s IH]; simpl; [tauto|].
  destruct (isWhiteSpace u); simpl; [exact IH|].
  split; discriminate.
Qed.

Lemma trimStart_head (s t : jsstring) (u : N) :
  trimStart s = u :: t -> isWhiteSpace u = false.
Proof.
  induction s as [|v s IH]; simpl; [discriminate|].
  destruct (isWhiteSpace v) eqn:E; [exact IH|].
  now intros [= <- _].
Qed.

Lemma forallb_rev (f : N -> bool) (s : jsstring) :
  forallb f (rev s) = true -> forallb f s = true.
Proof.
  rewrite !forallb_forall; intros H x Hx.
  apply H, in_rev; now rewrite rev_involutive.
Qed.

(** [!s.trim()] holds exactly for the strings made of white space only,
    the empty string among them. *)
Lemma trim_blank (s : jsstring) :
  trim s = [] <-> forallb isWhiteSpace s = true.
Proof.
  unfold trim, trimEnd; split.
  - intros H.
    assert (Hr : trimStart (rev (trimStart s)) = []).
    { destruct (trimStart (rev (trimStart s))) as [|v t]; [reflexivity|].
      simpl in H; destruct (rev t); discriminate H. }
    apply trimStart_blank, forallb_rev in Hr.
    apply trimStart_blank.
    destruct (trimStart s) as [|u t] eqn:E; [reflexivity|].
    apply trimStart_head in E.
    simpl in Hr; rewrite E in Hr; discriminate.
  - intros H; apply trimStart_blank in H; now rewrite H.
Qed.

Lemma sameId_refl (a : option jsstring) : sameId a a = true.
Proof. destruct a; simpl; [apply string_eqb_refl | reflexivity]. Qed.

Lemma truthyId_Some (a : jsstring) : a <> [] -> truthyId (Some a) = Some a.
Proof. destruct a; simpl; [intros H; now elim H | reflexivity]. Qed.

Lemma truthyId_sound (o : option jsstring) (a : jsstring) :
  truthyId o = Some a -> o = Some a /\ a <> [].
Proof.
  destruct o as [[|u s]|]; simpl; try discriminate.
  intros [= <-]; split; [reflexivity | discriminate].
Qed.

Lemma truthyId_None (o : option jsstring) :
  truthyId o = None <-> o = None \/ o = Some [].
Proof.
  destruct o as [[|u s]|]; simpl; split; intros H; auto; try discriminate;
    destruct H; discriminate.
Qed.

End StringFacts.

(** ** The commit of a batch that leaves the dependencies alone *)

Lemma commit_same_deps (before after : AppState) :
  activeConversationId after = activeConversationId before ->
  commit before false after = after.
Proof.
  intros H; unfold commit; now rewrite H, sameId_refl.
Qed.

Lemma commit_frame (before after : AppState) (b : bool) :
  conversationHistory (commit before b after) = conversationHistory after
  /\ activeConversationId (commit before b after) = activeConversationId after
  /\ error (commit before b after) = error after
  /\ isLoading (commit before b after) = isLoading after.
Proof.
  unfold commit, activeConversationEffect.
  destruct (_ || _); [|tauto].
  destruct (truthyId _); [|simpl; tauto].
  destruct (findConversation _ _); simpl; tauto.
Qed.

Lemma nth_error_snoc {A : Type} (l : list A) (x : A) :
  nth_error (l ++ [x]) (List.length l) = Some x.
Proof.
  rewrite nth_error_app2 by lia.
  now rewrite Nat.sub_diag.
Qed.

Lemma dropNth_snoc {A : Type} (l : list A) (x : A) :
  dropNth (List.length l) (l ++ [x]) = l.
Proof.
  unfold dropNth.
  rewrite firstn_app, firstn_all, Nat.sub_diag, firstn_O, app_nil_r.
  rewrite skipn_all2; [apply app_nil_r|].
  rewrite length_app; simpl; lia.
Qed.

(** ** Rejected submissions *)

Lemma handleSend_guard (env : option jsstring) (freshId c : jsstring)
      (st : AppState) :
  forallb isWhiteSpace c = true \/ isLoading st = true ->
  handleSend env freshId c st = (st, None).
Proof.
  intros H; unfold handleSend.
  destruct H as [H|H].
  - apply trim_blank in H; now rewrite H.
  - now rewrite H, orb_true_r.
Qed.

Lemma handleSend_accepted (env : option jsstring) (freshId c : jsstring)
      (st : AppState) :
  truthy (trim c) = true -> isLoading st = false ->
  handleSend env freshId c st =
    let st1 := setText [] (setError None (setHasInteracted true st)) in
    let userMsg := userMessage freshId c in
    let outbound := currentMessages st ++ [userMsg] in
    let st2 :=
      setIsLoading true
        (setMessages (messages st1 ++ [userMsg; loadingMessage]) st1) in
    if notConfigured env then
      (setIsLoading false
         (setMessages outbound
            (setError (Some (str "Chat service is not configured.")) st2)),
       None)
    else
      (st2,
       Some {| snapshotActiveId := activeConversationId st;
               n8nMessageList := outbound |}).
Proof.
  intros Hc Hl; unfold handleSend; now rewrite Hc, Hl.
Qed.

(** C4, as amended.  A submission whose text is empty or made of white space
    only, and a submission attempted while the loading flag [isLoading] is
    set, is a no-op: [handleSend] returns the state it was given and issues
    no request, and the session (state and pending requests) is unchanged. *)
Theorem handleSend_rejected_is_noop :
  forall (env : option jsstring) (w : Session) (freshId messageContent : jsstring),
    forallb isWhiteSpace messageContent = true \/ isLoading (app w) = true ->
    handleSend env freshId messageContent (app w) = (app w, None)
    /\ step env w (Send freshId messageContent) = w.
Proof.
  intros env w freshId c H.
  pose proof (handleSend_guard env freshId c (app w) H) as Hg.
  split; [exact Hg|].
  unfold step; rewrite Hg.
  rewrite commit_same_deps by reflexivity.
  rewrite app_nil_r; now destruct w.
Qed.

Lemma handleSend_rejected_is_noop_witness :
  let w := {| app := setIsLoading true initialState; inFlight := [] |} in
  handleSend None (str "u1") (str "hello") (app w) = (app w, None)
  /\ step None w (Send (str "u1") (str "hello")) = w.
Proof.
  apply (handleSend_rejected_is_noop None
           {| app := setIsLoading true initialState; inFlight := [] |}
           (str "u1") (str "hello")).
  right; reflexivity.
Defined.

(** C4, as stated, fails: [startNewConversation] clears the loading flag
    without the pending request being given up, so after "send, new chat"
    a request is still outstanding and the next submission is accepted: a
    second request is issued and the log changes. *)
Lemma second_submission_accepted_while_first_is_outstanding :
  let env := Some (str "https://n8n.example/webhook/chat") in
  let w := run env [Send (str "u1") (str "hello"); StartNewConversation]
               initialSession in
  let w' := step env w (Send (str "u2") (str "again")) in
  List.length (inFlight w) = 1
  /\ isLoading (app w) = false
  /\ List.length (inFlight w') = 2
  /\ messages (app w') = [userMessage (str "u2") (str "again"); loadingMessage]
  /\ w' <> w.
Proof.
  vm_compute; repeat split; discriminate.
Qed.

(** ** The title of a new conversation *)

Lemma substring_prefix (n : nat) (s : jsstring) : substring 0 n s = firstn n s.
Proof.
  unfold substring.
  now rewrite Nat.max_0_l, Nat.min_0_l, Nat.sub_0_r.
Qed.

Lemma newTitle_cons (m : N8nMessage) (rest : list N8nMessage) :
  newTitle (m :: rest) = firstn 30 (msg_content m) ++ str "...".
Proof.
  unfold newTitle; cbn [nth_error option_map plus_string].
  rewrite substring_prefix; unfold or_else.
  now rewrite truthy_app_r.
Qed.

(** C5.  The title given to a new entry is the first 30 code units of the
    first returned turn's content followed by "...".  The fallback is never
    taken: [+] is applied before [||], so the left operand always ends in
    "..." and is truthy.  An empty first content gives the title "...", a
    missing first turn gives "undefined...", and no input gives "New Chat". *)
Theorem newTitle_never_falls_back :
  (forall m rest, newTitle (m :: rest) = firstn 30 (msg_content m) ++ str "...")
  /\ (forall i r rest, newTitle (mkMessage i r [] :: rest) = str "...")
  /\ newTitle [] = str "undefined..."
  /\ (forall resultMessages, newTitle resultMessages <> str "New Chat").
Proof.
  split; [exact newTitle_cons|].
  split; [intros i r rest; now rewrite newTitle_cons|].
  split; [reflexivity|].
  intros [|m rest].
  - vm_compute; discriminate.
  - rewrite newTitle_cons; intros H.
    apply (f_equal (@rev N)) in H.
    rewrite rev_app_distr in H.
    vm_compute in H; discriminate H.
Qed.

(** ** The base log of a submission *)

(** C7, as amended.  The log a submission starts from, [currentMessages], is
    what [handleSend] sends (with the user turn appended).  It is the
    messages of the first store entry matching the active id, the empty log
    when the active id is a non-empty string that matches no entry, and the
    visible log [messages] when the active id is absent ([null] or empty). *)
Theorem handleSend_base_log :
  forall (env : option jsstring) (freshId messageContent : jsstring)
         (st : AppState),
    truthy (trim messageContent) = true ->
    isLoading st = false ->
    (forall fl, snd (handleSend env freshId messageContent st) = Some fl ->
                n8nMessageList fl
                = currentMessages st ++ [userMessage freshId messageContent])
    /\ (notConfigured env = true ->
        messages (fst (handleSend env freshId messageContent st))
        = currentMessages st ++ [userMessage freshId messageContent])
    /\ (forall a conv,
          activeConversationId st = Some a -> a <> [] ->
          findConversation a (conversationHistory st) = Some conv ->
          currentMessages st = conv_messages conv)
    /\ (forall a,
          activeConversationId st = Some a -> a <> [] ->
          findConversation a (conversationHistory st) = None ->
          currentMessages st = [])
    /\ (activeConversationId st = None \/ activeConversationId st = Some [] ->
        currentMessages st = messages st).
Proof.
  intros env freshId c st Hc Hl.
  rewrite (handleSend_accepted env freshId c st Hc Hl); cbv zeta.
  repeat split.
  - intros fl; destruct (notConfigured env); simpl; [discriminate|].
    now intros [= <-].
  - now intros ->.
  - intros a conv Ha Hne Hf; unfold currentMessages.
    now rewrite Ha, (truthyId_Some _ Hne), Hf.
  - intros a Ha Hne Hf; unfold currentMessages.
    now rewrite Ha, (truthyId_Some _ Hne), Hf.
  - intros H; apply truthyId_None in H; unfold currentMessages.
    now rewrite H.
Qed.

Lemma handleSend_base_log_witness :
  let env := Some (str "https://n8n.example/webhook/chat") in
  let conv := mkConversation (str "c1") (str "hello...")
                [mkMessage (str "m1") user (str "hello");
                 mkMessage (str "m2") assistant (str "hi there")] in
  let st := setActiveConversationId (Some (str "c1"))
              (setConversationHistory [conv] initialState) in
  currentMessages st = conv_messages conv.
Proof.
  intros env conv st.
  refine (proj1 (proj2 (proj2
            (handleSend_base_log env (str "u1") (str "again") st _ _)))
            (str "c1") conv _ _ _);
    solve [reflexivity | discriminate].
Defined.

(** C7, as stated, fails when the active id is absent: after a first
    submission that failed (here: no endpoint configured) the conversation is
    still unsaved, and the base log of the next submission is the visible log
    with the first user turn, not the empty log. *)
Lemma base_log_of_unsaved_conversation_is_visible_log :
  let w := run None [Send (str "u1") (str "hello")] initialSession in
  activeConversationId (app w) = None
  /\ conversationHistory (app w) = []
  /\ currentMessages (app w) = [userMessage (str "u1") (str "hello")]
  /\ currentMessages (app w) <> [].
Proof.
  vm_compute; repeat split; discriminate.
Qed.

(** ** Selecting a conversation *)

(** C9, as amended.  Selecting an id that matches no store entry is not an
    error: [loadConversation] only switches the active id, and the error and
    the store are untouched.  When the id is a non-empty string the visible
    log is left as it was, since the re-hydration effect writes the log only
    when it finds an entry; the base log of the next submission is empty.
    The visible log is emptied only when the id selected is the empty
    string. *)
Theorem loadConversation_unmatched_keeps_log :
  forall (env : option jsstring) (w : Session) (convId : jsstring),
    findConversation convId (conversationHistory (app w)) = None ->
    let w' := step env w (LoadConversation convId) in
    error (app w') = error (app w)
    /\ conversationHistory (app w') = conversationHistory (app w)
    /\ activeConversationId (app w') = Some convId
    /\ inFlight w' = inFlight w
    /\ (convId <> [] ->
        messages (app w') = messages (app w)
        /\ currentMessages (app w') = [])
    /\ (convId = [] ->
        sameId (activeConversationId (app w)) (@Some jsstring []) = false ->
        messages (app w') = []).
Proof.
  intros env w convId Hf; cbn [step app inFlight].
  destruct (commit_frame (app w) (loadConversation convId (app w)) false)
    as (Hh & Ha & He & _).
  rewrite He, Hh, Ha.
  do 4 (split; [reflexivity|]).
  split.
  - intros Hne.
    assert (Heff : activeConversationEffect (loadConversation convId (app w))
                   = loadConversation convId (app w)).
    { unfold activeConversationEffect, loadConversation; simpl_state.
      now rewrite (truthyId_Some _ Hne), Hf. }
    assert (Hc : commit (app w) false (loadConversation convId (app w))
                 = loadConversation convId (app w)).
    { unfold commit; rewrite Heff; now destruct (_ || _). }
    rewrite Hc; split; [reflexivity|].
    unfold currentMessages, loadConversation; simpl_state.
    now rewrite (truthyId_Some _ Hne), Hf.
  - intros -> Hdiff; unfold commit.
    unfold loadConversation at 1; simpl_state.
    rewrite Hdiff; cbn [negb orb].
    unfold activeConversationEffect, loadConversation; simpl_state.
    reflexivity.
Qed.

Lemma loadConversation_unmatched_keeps_log_witness :
  let w := run None [Send (str "u1") (str "hello")] initialSession in
  let w' := step None w (LoadConversation (str "c-42")) in
  messages (app w') = messages (app w)
  /\ currentMessages (app w') = [].
Proof.
  intros w w'.
  refine (proj1 (proj2 (proj2 (proj2 (proj2
            (loadConversation_unmatched_keeps_log None w (str "c-42") _))))) _).
  - reflexivity.
  - discriminate.
Defined.

(** C9, as stated, fails: with one user turn on screen and an empty store,
    selecting an id that no entry has leaves that turn in the visible log. *)
Lemma select_unmatched_id_log_not_empty :
  let w := run None [Send (str "u1") (str "hello")] initialSession in
  let w' := step None w (LoadConversation (str "c-42")) in
  findConversation (str "c-42") (conversationHistory (app w)) = None
  /\ messages (app w') = [userMessage (str "u1") (str "hello")]
  /\ messages (app w') <> [].
Proof.
  vm_compute; repeat split; discriminate.
Qed.

(** ** How requests settle *)

(** The only successful outcome: an OK response whose body has [messages]. *)
Lemma exchange_success (o : FetchOutcome) (r : list N8nMessage) :
  exchange o = inr r <-> exists statusText, o = Responds true statusText (Json (Some r)).
Proof.
  split.
  - destruct o as [e|[|] statusText [e|[r'|]]]; simpl; try discriminate.
    intros [= ->]; now exists statusText.
  - now intros [statusText ->].
Qed.

(** The failing outcomes: the transport fails, the status is not OK, the
    body cannot be read, or the body has no [messages]. *)
Lemma exchange_failure (o : FetchOutcome) (e : Thrown) :
  exchange o = inl e <->
  o = Rejects e
  \/ (exists statusText body,
        o = Responds false statusText body
        /\ e = ErrorObject (str "Network response was not ok: " ++ statusText))
  \/ (exists statusText, o = Responds true statusText (JsonThrows e))
  \/ (exists statusText,
        o = Responds true statusText (Json None)
        /\ e = ErrorObject (str "Invalid response structure from n8n")).
Proof.
  split.
  - destruct o as [e'|[|] statusText [e'|[r'|]]]; simpl; try discriminate;
      intros [= <-]; eauto 8.
  - intros [->|[(statusText & body & -> & ->)|[(statusText & ->)
            |(statusText & -> & ->)]]]; reflexivity.
Qed.

(** The [catch] path writes the log and the error and nothing else. *)
Lemma handleSend_settle_failed (newConvId : jsstring) (o : FetchOutcome)
      (e : Thrown) (fl : InFlight) (st : AppState) :
  exchange o = inl e ->
  handleSend_settle newConvId o fl st
  = setIsLoading false (handleSend_failed e fl st).
Proof. intros H; unfold handleSend_settle; now rewrite H. Qed.

Lemma handleSend_settle_resolved (newConvId : jsstring) (o : FetchOutcome)
      (r : list N8nMessage) (fl : InFlight) (st : AppState) :
  exchange o = inr r ->
  handleSend_settle newConvId o fl st
  = setIsLoading false (handleSend_resolved newConvId r fl st).
Proof. intros H; unfold handleSend_settle; now rewrite H. Qed.

Lemma step_send_not_configured (env : option jsstring) (w : Session)
      (freshId c : jsstring) :
  truthy (trim c) = true -> isLoading (app w) = false ->
  notConfigured env = true ->
  step env w (Send freshId c)
  = {| app := setIsLoading false
                (setMessages (currentMessages (app w) ++ [userMessage freshId c])
                   (setError (Some (str "Chat service is not configured."))
                      (optimisticState freshId c (app w))));
       inFlight := inFlight w |}.
Proof.
  intros Hc Hl Hn; unfold step.
  rewrite (handleSend_accepted env freshId c (app w) Hc Hl); cbv zeta.
  rewrite Hn, commit_same_deps by reflexivity.
  now rewrite app_nil_r.
Qed.

Lemma step_send_configured (env : option jsstring) (w : Session)
      (freshId c : jsstring) :
  truthy (trim c) = true -> isLoading (app w) = false ->
  notConfigured env = false ->
  step env w (Send freshId c)
  = {| app := optimisticState freshId c (app w);
       inFlight := inFlight w ++ [requestOf freshId c (app w)] |}.
Proof.
  intros Hc Hl Hn; unfold step.
  rewrite (handleSend_accepted env freshId c (app w) Hc Hl); cbv zeta.
  now rewrite Hn, commit_same_deps by reflexivity.
Qed.

(** A pending request that fails: the [catch] path, and no effect. *)
Lemma step_settle_failed (env : option jsstring) (st : AppState)
      (pending : list InFlight) (fl : InFlight) (newConvId : jsstring)
      (o : FetchOutcome) (e : Thrown) :
  exchange o = inl e ->
  step env {| app := st; inFlight := pending ++ [fl] |}
       (Settle (List.length pending) newConvId o)
  = {| app := setIsLoading false (handleSend_failed e fl st);
       inFlight := pending |}.
Proof.
  intros Ho; unfold step; cbn [app inFlight].
  rewrite nth_error_snoc, dropNth_snoc.
  unfold settleAndCommit, succeeds; rewrite Ho.
  rewrite (handleSend_settle_failed _ _ _ _ _ Ho).
  now rewrite commit_same_deps by reflexivity.
Qed.

(** A pending request that succeeds: the success path, then the effect,
    since the store is a new array. *)
Lemma step_settle_resolved (env : option jsstring) (st : AppState)
      (pending : list InFlight) (fl : InFlight) (newConvId : jsstring)
      (o : FetchOutcome) (r : list N8nMessage) :
  exchange o = inr r ->
  step env {| app := st; inFlight := pending ++ [fl] |}
       (Settle (List.length pending) newConvId o)
  = {| app := activeConversationEffect
                (setIsLoading false (handleSend_resolved newConvId r fl st));
       inFlight := pending |}.
Proof.
  intros Ho; unfold step; cbn [app inFlight].
  rewrite nth_error_snoc, dropNth_snoc.
  unfold settleAndCommit, succeeds; rewrite Ho.
  now rewrite (handleSend_settle_resolved _ _ _ _ _ Ho).
Qed.

(** C2.  A submission that fails leaves the visible log at the captured base
    log followed by the user turn, sets an error message, and leaves the
    store as it was before the submission.  This holds when no endpoint is
    configured (no request is issued at all) and when the request issued
    settles with any failing outcome: a transport error, a non-OK status, an
    unreadable body, or a body without [messages].  Whatever the state the
    failure arrives in, the [catch] path writes the log that was sent and the
    error, clears the loading flag, and leaves the store and the active id
    alone. *)
Theorem failed_submission_rolls_back :
  forall (env : option jsstring) (w : Session) (freshId messageContent : jsstring),
    truthy (trim messageContent) = true ->
    isLoading (app w) = false ->
    let outbound :=
      currentMessages (app w) ++ [userMessage freshId messageContent] in
    let w1 := step env w (Send freshId messageContent) in
    (notConfigured env = true ->
       messages (app w1) = outbound
       /\ error (app w1) = Some (str "Chat service is not configured.")
       /\ conversationHistory (app w1) = conversationHistory (app w)
       /\ activeConversationId (app w1) = activeConversationId (app w)
       /\ isLoading (app w1) = false
       /\ inFlight w1 = inFlight w)
    /\ (notConfigured env = false ->
        forall newConvId o e,
          exchange o = inl e ->
          let w2 := step env w1 (Settle (List.length (inFlight w)) newConvId o) in
          messages (app w2) = outbound
          /\ error (app w2)
             = Some (str "Sorry, I had trouble connecting: " ++ errorMessage e)
          /\ conversationHistory (app w2) = conversationHistory (app w)
          /\ activeConversationId (app w2) = activeConversationId (app w)
          /\ isLoading (app w2) = false
          /\ inFlight w2 = inFlight w)
    /\ (forall newConvId o e fl st,
          exchange o = inl e ->
          let st' := settleAndCommit newConvId o fl st in
          messages st' = n8nMessageList fl
          /\ error st'
             = Some (str "Sorry, I had trouble connecting: " ++ errorMessage e)
          /\ conversationHistory st' = conversationHistory st
          /\ activeConversationId st' = activeConversationId st
          /\ isLoading st' = false).
Proof.
  intros env w freshId c Hc Hl outbound w1; subst outbound w1.
  split; [|split]; [intros Hn|intros Hn|].
  - rewrite (step_send_not_configured env w freshId c Hc Hl Hn).
    cbn; repeat split.
  - intros newConvId o e Ho.
    rewrite (step_send_configured env w freshId c Hc Hl Hn).
    rewrite (step_settle_failed env _ _ _ newConvId o e Ho).
    cbn; repeat split.
  - intros newConvId o e fl st Ho st'; subst st'.
    unfold settleAndCommit, succeeds; rewrite Ho.
    rewrite (handleSend_settle_failed _ _ _ _ _ Ho).
    rewrite commit_same_deps by reflexivity.
    cbn; repeat split.
Qed.

Lemma failed_submission_rolls_back_witness :
  let env := Some (str "https://n8n.example/webhook/chat") in
  let w1 := step env initialSession (Send (str "u1") (str "hello")) in
  let w2 := step env w1
              (Settle 0 (str "c1") (Responds false (str "Bad Gateway") (Json None))) in
  messages (app w2) = [userMessage (str "u1") (str "hello")]
  /\ conversationHistory (app w2) = [].
Proof.
  intros env w1 w2.
  destruct (proj1 (proj2 (failed_submission_rolls_back env initialSession
                     (str "u1") (str "hello") eq_refl eq_refl))
                  eq_refl (str "c1")
                  (Responds false (str "Bad Gateway") (Json None)) _ eq_refl)
    as (Hm & _ & Hh & _).
  split; [exact Hm | exact Hh].
Defined.

(** ** The store after a successful exchange *)

Lemma findConversation_replace_same (a : jsstring) (r : list N8nMessage)
      (h : list ConversationHistory) :
  findConversation a (map (replaceMessagesOf a r) h)
  = option_map (withMessages r) (findConversation a h).
Proof.
  unfold findConversation, replaceMessagesOf.
  induction h as [|conv h IH]; simpl; [reflexivity|].
  destruct (string_eqb (conv_id conv) a) eqn:E; simpl; rewrite E; auto.
Qed.

Lemma findConversation_replace_other (a b : jsstring) (r : list N8nMessage)
      (h : list ConversationHistory) :
  a <> b ->
  findConversation b (map (replaceMessagesOf a r) h) = findConversation b h.
Proof.
  intros Hne; unfold findConversation, replaceMessagesOf.
  induction h as [|conv h IH]; simpl; [reflexivity|].
  destruct (string_eqb (conv_id conv) a) eqn:E; simpl.
  - apply string_eqb_eq in E; rewrite E.
    now rewrite (string_eqb_neq _ _ Hne).
  - now rewrite IH.
Qed.

Lemma replaceMessagesOf_id (a : jsstring) (r : list N8nMessage)
      (conv : ConversationHistory) :
  conv_id (replaceMessagesOf a r conv) = conv_id conv
  /\ conv_title (replaceMessagesOf a r conv) = conv_title conv.
Proof.
  unfold replaceMessagesOf; now destruct (string_eqb _ _).
Qed.

(** The success path, case by case on the id the closure captured. *)
Lemma handleSend_resolved_existing (newConvId a : jsstring)
      (r : list N8nMessage) (fl : InFlight) (st : AppState) :
  truthyId (snapshotActiveId fl) = Some a ->
  handleSend_resolved newConvId r fl st
  = setConversationHistory
      (map (replaceMessagesOf a r) (conversationHistory st))
      (setMessages r st).
Proof.
  intros H; unfold handleSend_resolved, reconcile; now rewrite H.
Qed.

Lemma handleSend_resolved_new (newConvId : jsstring)
      (r : list N8nMessage) (fl : InFlight) (st : AppState) :
  truthyId (snapshotActiveId fl) = None ->
  handleSend_resolved newConvId r fl st
  = setActiveConversationId (Some newConvId)
      (setConversationHistory
         ({| conv_id := newConvId; conv_title := newTitle r;
             conv_messages := r |} :: conversationHistory st)
         (setMessages r st)).
Proof.
  intros H; unfold handleSend_resolved, reconcile; now rewrite H.
Qed.

Lemma handleSend_resolved_messages (newConvId : jsstring)
      (r : list N8nMessage) (fl : InFlight) (st : AppState) :
  messages (handleSend_resolved newConvId r fl st) = r.
Proof.
  unfold handleSend_resolved, reconcile.
  now destruct (truthyId _).
Qed.

(** The effect after the success path, when the conversation on screen is
    the one the request was sent for, or a new one. *)
Lemma effect_after_resolved (newConvId : jsstring) (r : list N8nMessage)
      (fl : InFlight) (st : AppState) :
  newConvId <> [] ->
  (forall a, truthyId (snapshotActiveId fl) = Some a ->
             activeConversationId st = Some a) ->
  messages (activeConversationEffect
              (setIsLoading false (handleSend_resolved newConvId r fl st))) = r.
Proof.
  intros Hne Hsame.
  destruct (truthyId (snapshotActiveId fl)) as [a|] eqn:E.
  - rewrite (handleSend_resolved_existing newConvId a r fl st E).
    unfold activeConversationEffect; simpl_state.
    rewrite (Hsame a eq_refl).
    destruct (truthyId_sound _ _ E) as [_ Ha].
    rewrite (truthyId_Some _ Ha), findConversation_replace_same.
    now destruct (findConversation a (conversationHistory st)).
  - rewrite (handleSend_resolved_new newConvId r fl st E).
    unfold activeConversationEffect; simpl_state.
    rewrite (truthyId_Some _ Hne).
    unfold findConversation; cbn [find conv_id].
    now rewrite string_eqb_refl.
Qed.

Lemma settleAndCommit_resolved (newConvId : jsstring) (o : FetchOutcome)
      (r : list N8nMessage) (fl : InFlight) (st : AppState) :
  exchange o = inr r ->
  settleAndCommit newConvId o fl st
  = activeConversationEffect
      (setIsLoading false (handleSend_resolved newConvId r fl st)).
Proof.
  intros Ho; unfold settleAndCommit, commit, succeeds; rewrite Ho.
  now rewrite (handleSend_settle_resolved _ _ _ _ _ Ho).
Qed.

Lemma effect_frame (st : AppState) :
  conversationHistory (activeConversationEffect st) = conversationHistory st
  /\ activeConversationId (activeConversationEffect st) = activeConversationId st
  /\ isLoading (activeConversationEffect st) = isLoading st.
Proof.
  unfold activeConversationEffect.
  destruct (truthyId _); [|simpl; tauto].
  destruct (findConversation _ _); simpl; tauto.
Qed.

(** The request a call of [handleSend] issues, when it issues one. *)
Lemma handleSend_request (env : option jsstring) (freshId c : jsstring)
      (st : AppState) (fl : InFlight) :
  snd (handleSend env freshId c st) = Some fl -> fl = requestOf freshId c st.
Proof.
  unfold handleSend.
  destruct (_ || _); [discriminate|].
  destruct (notConfigured env); simpl; [discriminate|].
  now intros [= <-].
Qed.

(** C3, as amended.  When the request succeeds, [handleSend] sets the visible
    log to exactly the returned sequence, whatever the optimistic log was.
    The re-hydration effect then runs, since the store is a new array, and
    what is on screen after it depends on the active conversation of that
    moment: the returned sequence when the conversation was unsaved (its new
    entry becomes the active one), when the conversation the request was
    sent for is still active, or when the active id has no entry; the stored
    log of the other conversation when the user selected one meanwhile; the
    empty log when the user started a new chat meanwhile.  Where the log is
    the returned sequence it holds a placeholder turn only if the adapter
    returned one.  In particular, a submission followed by its successful
    response, with nothing in between, replaces the optimistic log, which
    holds the placeholder, by the returned sequence and clears the loading
    flag. *)
Theorem resolved_log_after_effect :
  forall (newConvId : jsstring) (o : FetchOutcome) (r : list N8nMessage)
         (fl : InFlight) (st : AppState),
    exchange o = inr r ->
    newConvId <> [] ->
    let shown := messages (settleAndCommit newConvId o fl st) in
    messages (handleSend_settle newConvId o fl st) = r
    /\ (truthyId (snapshotActiveId fl) = None -> shown = r)
    /\ (forall a,
          truthyId (snapshotActiveId fl) = Some a ->
          (activeConversationId st = Some a -> shown = r)
          /\ (forall b conv,
                activeConversationId st = Some b -> b <> [] -> b <> a ->
                findConversation b (conversationHistory st) = Some conv ->
                shown = conv_messages conv)
          /\ (forall b,
                activeConversationId st = Some b -> b <> [] ->
                findConversation b (conversationHistory st) = None ->
                shown = r)
          /\ (truthyId (activeConversationId st) = None -> shown = []))
    /\ (truthyId (snapshotActiveId fl) = None
        \/ activeConversationId st = snapshotActiveId fl ->
        ~ In loadingMessage r -> ~ In loadingMessage shown)
    /\ (forall env w freshId c,
          notConfigured env = false ->
          truthy (trim c) = true ->
          isLoading (app w) = false ->
          let w1 := step env w (Send freshId c) in
          let w2 :=
            step env w1 (Settle (List.length (inFlight w)) newConvId o) in
          In loadingMessage (messages (app w1))
          /\ messages (app w2) = r
          /\ isLoading (app w2) = false).
Proof.
  intros newConvId o r fl st Ho Hne shown; subst shown.
  rewrite (settleAndCommit_resolved newConvId o r fl st Ho).
  assert (Hunsaved : truthyId (snapshotActiveId fl) = None ->
            messages (activeConversationEffect
                        (setIsLoading false
                           (handleSend_resolved newConvId r fl st))) = r).
  { intros Hnone; apply effect_after_resolved; [exact Hne|].
    intros a Ha; rewrite Hnone in Ha; discriminate Ha. }
  assert (Hsame : forall a,
            truthyId (snapshotActiveId fl) = Some a ->
            activeConversationId st = Some a ->
            messages (activeConversationEffect
                        (setIsLoading false
                           (handleSend_resolved newConvId r fl st))) = r).
  { intros a Ht Hact; apply effect_after_resolved; [exact Hne|].
    intros a0 Ha0; rewrite Ht in Ha0; injection Ha0 as <-; exact Hact. }
  split.
  { rewrite (handleSend_settle_resolved _ _ _ _ _ Ho).
    apply handleSend_resolved_messages. }
  split; [exact Hunsaved|].
  split; [|split].
  - intros a Ht.
    split; [now apply Hsame|].
    assert (Hother : forall b,
              activeConversationId st = Some b -> b <> [] -> a <> b ->
              messages (activeConversationEffect
                          (setIsLoading false
                             (handleSend_resolved newConvId r fl st)))
              = match findConversation b (conversationHistory st) with
                | Some conv => conv_messages conv
                | None => r
                end).
    { intros b Hact Hb Hab.
      rewrite (handleSend_resolved_existing newConvId a r fl st Ht).
      unfold activeConversationEffect; simpl_state.
      rewrite Hact, (truthyId_Some _ Hb).
      rewrite (findConversation_replace_other a b r _ Hab).
      now destruct (findConversation b (conversationHistory st)). }
    split; [|split].
    + intros b conv Hact Hb Hba Hf.
      rewrite (Hother b Hact Hb (fun H => Hba (eq_sym H))); now rewrite Hf.
    + intros b Hact Hb Hf.
      destruct (string_eqb a b) eqn:E.
      * apply string_eqb_eq in E; subst b; now apply (Hsame a).
      * assert (Hab : a <> b)
          by (intros ->; rewrite string_eqb_refl in E; discriminate E).
        rewrite (Hother b Hact Hb Hab); now rewrite Hf.
    + intros Hnone.
      rewrite (handleSend_resolved_existing newConvId a r fl st Ht).
      unfold activeConversationEffect; simpl_state.
      now rewrite Hnone.
  - intros Hcase Hfree.
    assert (Hr : messages (activeConversationEffect
                             (setIsLoading false
                                (handleSend_resolved newConvId r fl st))) = r).
    { destruct (truthyId (snapshotActiveId fl)) as [a|] eqn:Ht;
        [|now apply Hunsaved].
      destruct Hcase as [Hc|Hc]; [discriminate Hc|].
      apply (Hsame a eq_refl).
      rewrite Hc; now apply truthyId_sound in Ht as [-> _]. }
    now rewrite Hr.
  - intros env w freshId c Hconf Hc Hl w1 w2; subst w2 w1.
    rewrite (step_send_configured env w freshId c Hc Hl Hconf).
    rewrite (step_settle_resolved env _ _ _ newConvId o r Ho).
    cbn [app].
    split; [|split].
    + unfold optimisticState; simpl_state.
      apply in_or_app; right; right; now left.
    + apply effect_after_resolved; [exact Hne|].
      intros a Ha; apply truthyId_sound in Ha as [Ha _].
      exact Ha.
    + now rewrite (proj2 (proj2 (effect_frame _))).
Qed.

Lemma resolved_log_after_effect_witness :
  let env := Some (str "https://n8n.example/webhook/chat") in
  let r := [mkMessage (str "u1") user (str "hello");
            mkMessage (str "a1") assistant (str "hi there")] in
  let ok := Responds true (str "OK") (Json (Some r)) in
  let w2 := run env [Send (str "u1") (str "hello"); Settle 0 (str "c1") ok]
                initialSession in
  messages (app w2) = r /\ isLoading (app w2) = false.
Proof.
  intros env r ok w2.
  assert (Hne : str "c1" <> []) by discriminate.
  destruct (proj2 (proj2 (proj2 (proj2
              (resolved_log_after_effect (str "c1") ok r
                 (requestOf (str "u1") (str "hello") initialState)
                 initialState eq_refl Hne))))
              env initialSession (str "u1") (str "hello")
              eq_refl eq_refl eq_refl) as (_ & Hm & Hl).
  split; [exact Hm | exact Hl].
Defined.

(** C3, as stated, fails.  When the user selected conversation B while the
    request of conversation A was pending, the log on screen after the
    successful response is B's stored log, not the returned sequence; when
    the user started a new chat meanwhile, it is empty.  And when the
    adapter returns a turn equal to the placeholder, the log on screen after
    the response holds it, with the loading flag cleared. *)
Lemma resolved_log_differs_from_returned_sequence :
  let env := Some (str "https://n8n.example/webhook/chat") in
  let logA := [mkMessage (str "m1") user (str "first");
               mkMessage (str "m2") assistant (str "one")] in
  let logB := [mkMessage (str "m3") user (str "second");
               mkMessage (str "m4") assistant (str "two")] in
  let cA := mkConversation (str "cA") (str "first...") logA in
  let cB := mkConversation (str "cB") (str "second...") logB in
  let w := {| app := setMessages logA
                       (setActiveConversationId (Some (str "cA"))
                          (setConversationHistory [cB; cA] initialState));
              inFlight := [] |} in
  let r := logA ++ [mkMessage (str "u1") user (str "more");
                    mkMessage (str "a1") assistant (str "sure")] in
  let ok x := Responds true (str "OK") (Json (Some x)) in
  let r' := [mkMessage (str "u1") user (str "hello"); loadingMessage] in
  let w' := run env [Send (str "u1") (str "hello");
                     Settle 0 (str "c1") (ok r')] initialSession in
  exchange (ok r) = inr r
  /\ messages (app (run env [Send (str "u1") (str "more");
                            LoadConversation (str "cB");
                            Settle 0 (str "c1") (ok r)] w)) = logB
  /\ logB <> r
  /\ messages (app (run env [Send (str "u1") (str "more");
                            StartNewConversation;
                            Settle 0 (str "c1") (ok r)] w)) = []
  /\ r <> []
  /\ exchange (ok r') = inr r'
  /\ In loadingMessage (messages (app w'))
  /\ isLoading (app w') = false.
Proof.
  vm_compute; repeat split; try discriminate.
  right; left; reflexivity.
Qed.

(** C6.  When the request of a conversation with no active id succeeds, the
    store becomes the old store with one new entry in front, whose id is the
    id just synthesised; that id becomes the active id, the ids of the store
    stay pairwise distinct when the synthesised id is fresh, and the next
    submission is made for that id, from the returned sequence. *)
Theorem new_conversation_inserted_at_front :
  forall (newConvId : jsstring) (o : FetchOutcome) (r : list N8nMessage)
         (fl : InFlight) (st : AppState),
    exchange o = inr r ->
    truthyId (snapshotActiveId fl) = None ->
    let st' := settleAndCommit newConvId o fl st in
    conversationHistory st'
    = {| conv_id := newConvId; conv_title := newTitle r; conv_messages := r |}
        :: conversationHistory st
    /\ activeConversationId st' = Some newConvId
    /\ (~ In newConvId (map conv_id (conversationHistory st)) ->
        NoDup (map conv_id (conversationHistory st)) ->
        NoDup (map conv_id (conversationHistory st')))
    /\ (newConvId <> [] ->
        messages st' = r
        /\ currentMessages st' = r
        /\ forall env freshId c fl',
             snd (handleSend env freshId c st') = Some fl' ->
             snapshotActiveId fl' = Some newConvId
             /\ n8nMessageList fl' = r ++ [userMessage freshId c]).
Proof.
  intros newConvId o r fl st Ho Hnew st'; subst st'.
  rewrite (settleAndCommit_resolved newConvId o r fl st Ho).
  set (st1 := setIsLoading false (handleSend_resolved newConvId r fl st)).
  destruct (effect_frame st1) as (Hh & Ha & _).
  assert (Hh1 : conversationHistory st1
                = {| conv_id := newConvId; conv_title := newTitle r;
                     conv_messages := r |} :: conversationHistory st).
  { subst st1; now rewrite (handleSend_resolved_new newConvId r fl st Hnew). }
  assert (Ha1 : activeConversationId st1 = Some newConvId).
  { subst st1; now rewrite (handleSend_resolved_new newConvId r fl st Hnew). }
  rewrite Hh, Ha, Hh1, Ha1.
  split; [reflexivity|]. split; [reflexivity|]. split.
  - intros Hfresh Hnd; cbn [map conv_id]; now constructor.
  - intros Hne.
    assert (Hcur : currentMessages (activeConversationEffect st1) = r).
    { unfold currentMessages; rewrite Hh, Ha, Hh1, Ha1.
      rewrite (truthyId_Some _ Hne).
      unfold findConversation; cbn [find conv_id conv_messages].
      now rewrite string_eqb_refl. }
    split; [|split; [exact Hcur|]].
    + subst st1; apply effect_after_resolved; [exact Hne|].
      intros a Ha'; congruence.
    + intros env freshId c fl' Hreq.
      apply handleSend_request in Hreq; subst fl'.
      unfold requestOf; cbn [snapshotActiveId n8nMessageList].
      now rewrite Ha, Ha1, Hcur.
Qed.

Lemma new_conversation_inserted_at_front_witness :
  let r := [mkMessage (str "u1") user (str "hello");
            mkMessage (str "a1") assistant (str "hi there")] in
  let st := optimisticState (str "u1") (str "hello") initialState in
  let fl := requestOf (str "u1") (str "hello") initialState in
  let st' := settleAndCommit (str "c1")
               (Responds true (str "OK") (Json (Some r))) fl st in
  conversationHistory st' = [mkConversation (str "c1") (newTitle r) r]
  /\ activeConversationId st' = Some (str "c1").
Proof.
  intros r st fl st'.
  destruct (new_conversation_inserted_at_front (str "c1")
              (Responds true (str "OK") (Json (Some r))) r fl st
              eq_refl eq_refl) as (Hh & Ha & _).
  split; [exact Hh | exact Ha].
Defined.

(** C8.  When the request of a conversation with a (non-empty) active id
    succeeds, the store keeps its length and order; at every position the
    entry keeps its id and title; an entry with that id gets the returned
    sequence as its messages and every other entry is unchanged.  The active
    id is unchanged. *)
Theorem existing_conversation_only_messages_change :
  forall (newConvId a : jsstring) (o : FetchOutcome) (r : list N8nMessage)
         (fl : InFlight) (st : AppState),
    exchange o = inr r ->
    snapshotActiveId fl = Some a ->
    a <> [] ->
    let st' := settleAndCommit newConvId o fl st in
    conversationHistory st'
    = map (replaceMessagesOf a r) (conversationHistory st)
    /\ List.length (conversationHistory st')
       = List.length (conversationHistory st)
    /\ (forall i conv,
          nth_error (conversationHistory st) i = Some conv ->
          exists conv',
            nth_error (conversationHistory st') i = Some conv'
            /\ conv_id conv' = conv_id conv
            /\ conv_title conv' = conv_title conv
            /\ (conv_id conv = a -> conv_messages conv' = r)
            /\ (conv_id conv <> a -> conv' = conv))
    /\ activeConversationId st' = activeConversationId st.
Proof.
  intros newConvId a o r fl st Ho Hsnap Hne st'; subst st'.
  rewrite (settleAndCommit_resolved newConvId o r fl st Ho).
  set (st1 := setIsLoading false (handleSend_resolved newConvId r fl st)).
  destruct (effect_frame st1) as (Hh & Ha & _).
  assert (Ht : truthyId (snapshotActiveId fl) = Some a)
    by (rewrite Hsnap; now apply truthyId_Some).
  assert (Hh1 : conversationHistory st1
                = map (replaceMessagesOf a r) (conversationHistory st)).
  { subst st1; now rewrite (handleSend_resolved_existing newConvId a r fl st Ht). }
  assert (Ha1 : activeConversationId st1 = activeConversationId st).
  { subst st1; now rewrite (handleSend_resolved_existing newConvId a r fl st Ht). }
  rewrite Hh, Ha, Hh1, Ha1.
  split; [reflexivity|]. split; [apply length_map|]. split; [|reflexivity].
  intros i conv Hi.
  exists (replaceMessagesOf a r conv).
  split; [rewrite nth_error_map, Hi; reflexivity|].
  destruct (replaceMessagesOf_id a r conv) as [Hid Htitle].
  split; [exact Hid|]. split; [exact Htitle|].
  unfold replaceMessagesOf; split; intros Hc.
  - now rewrite Hc, string_eqb_refl.
  - now rewrite (string_eqb_neq _ _ Hc).
Qed.

Lemma existing_conversation_only_messages_change_witness :
  let r := [mkMessage (str "u1") user (str "hello");
            mkMessage (str "a1") assistant (str "hi there")] in
  let cA := mkConversation (str "cA") (str "first...") [] in
  let cB := mkConversation (str "cB") (str "second...") [] in
  let st := setActiveConversationId (Some (str "cA"))
              (setConversationHistory [cB; cA] initialState) in
  let fl := requestOf (str "u1") (str "hello") st in
  conversationHistory
    (settleAndCommit (str "c1") (Responds true (str "OK") (Json (Some r))) fl st)
  = [cB; mkConversation (str "cA") (str "first...") r].
Proof.
  intros r cA cB st fl.
  refine (proj1 (existing_conversation_only_messages_change (str "c1") (str "cA")
                   (Responds true (str "OK") (Json (Some r))) r fl st
                   eq_refl eq_refl _)).
  discriminate.
Defined.

(** ** Switching conversation while a request is pending *)

(** Selecting another conversation that the store has: the active id
    changes, so the effect runs and shows that conversation's log. *)
Lemma step_load_other (env : option jsstring) (w : Session)
      (b : jsstring) (conv : ConversationHistory) :
  sameId (activeConversationId (app w)) (Some b) = false ->
  b <> [] ->
  findConversation b (conversationHistory (app w)) = Some conv ->
  step env w (LoadConversation b)
  = {| app := setMessages (conv_messages conv) (loadConversation b (app w));
       inFlight := inFlight w |}.
Proof.
  intros Hdiff Hne Hf; unfold step, commit.
  unfold loadConversation at 1; simpl_state.
  rewrite Hdiff; cbn [negb orb].
  unfold activeConversationEffect, loadConversation; simpl_state.
  now rewrite (truthyId_Some _ Hne), Hf.
Qed.





(** ** What the store can hold *)

Section StoreInvariant.

Variable P : list N8nMessage -> Prop.
Variable env : option jsstring.

Lemma handleSend_store (freshId c : jsstring) (st : AppState) :
  conversationHistory (fst (handleSend env freshId c st))
  = conversationHistory st.
Proof.
  unfold handleSend.
  destruct (_ || _); [reflexivity|].
  now destruct (notConfigured env).
Qed.

Lemma handleSend_settle_store (newConvId : jsstring) (o : FetchOutcome)
      (fl : InFlight) (st : AppState) :
  (forall r, exchange o = inr r -> P r) ->
  storeSatisfies P st ->
  storeSatisfies P (handleSend_settle newConvId o fl st).
Proof.
  intros Hr Hst; unfold storeSatisfies, handleSend_settle in *.
  destruct (exchange o) as [e|r]; simpl_state; [exact Hst|].
  specialize (Hr r eq_refl).
  unfold handleSend_resolved, reconcile.
  destruct (truthyId (snapshotActiveId fl)) as [a|]; simpl_state.
  - apply Forall_map.
    eapply Forall_impl; [|exact Hst].
    intros conv Hconv; unfold replaceMessagesOf.
    now destruct (string_eqb (conv_id conv) a).
  - now constructor.
Qed.

Lemma step_store (w : Session) (e : Event) :
  (forall r, In r (returnedSequence e) -> P r) ->
  storeSatisfies P (app w) ->
  storeSatisfies P (app (step env w e)).
Proof.
  intros Hr Hst; unfold storeSatisfies in *.
  destruct e as [|convId| |t|freshId c|k newConvId o]; cbn [step app].
  - now rewrite (proj1 (commit_frame _ _ _)).
  - now rewrite (proj1 (commit_frame _ _ _)).
  - exact Hst.
  - exact Hst.
  - pose proof (handleSend_store freshId c (app w)) as Hs.
    destruct (handleSend env freshId c (app w)) as [st request].
    cbn [app fst] in *.
    now rewrite (proj1 (commit_frame _ _ _)), Hs.
  - destruct (nth_error (inFlight w) k) as [fl|]; [|exact Hst].
    cbn [app]; unfold settleAndCommit.
    rewrite (proj1 (commit_frame _ _ _)).
    apply handleSend_settle_store; [|exact Hst].
    intros r Ho; apply Hr; cbn [returnedSequence].
    rewrite Ho; now left.
Qed.

Lemma run_store (trace : list Event) (w : Session) :
  (forall r, In r (returnedSequences trace) -> P r) ->
  storeSatisfies P (app w) ->
  storeSatisfies P (app (run env trace w)).
Proof.
  revert w; induction trace as [|e trace IH]; intros w Hr Hst; [exact Hst|].
  cbn [run fold_left]; apply IH.
  - intros r Hin; apply Hr; cbn [returnedSequences flat_map].
    apply in_or_app; now right.
  - apply step_store; [|exact Hst].
    intros r Hin; apply Hr; cbn [returnedSequences flat_map].
    apply in_or_app; now left.
Qed.

End StoreInvariant.

(** C10, as amended.  In every state reached from the initial one, the
    messages of every store entry are, verbatim, one of the sequences the
    adapter returned.  The optimistic log is never stored, so a store entry
    contains the placeholder turn only if a returned sequence contained it. *)
Theorem persisted_logs_are_returned_sequences :
  forall (env : option jsstring) (trace : list Event) (conv : ConversationHistory),
    In conv (conversationHistory (app (run env trace initialSession))) ->
    In (conv_messages conv) (returnedSequences trace)
    /\ ((forall r, In r (returnedSequences trace) -> ~ In loadingMessage r) ->
        ~ In loadingMessage (conv_messages conv)).
Proof.
  intros env trace conv Hin.
  assert (Hst : storeSatisfies (fun r => In r (returnedSequences trace))
                  (app (run env trace initialSession))).
  { apply run_store; [auto | constructor]. }
  unfold storeSatisfies in Hst; rewrite Forall_forall in Hst.
  specialize (Hst conv Hin).
  split; [exact Hst | auto].
Qed.

Lemma persisted_logs_are_returned_sequences_witness :
  let env := Some (str "https://n8n.example/webhook/chat") in
  let r := [mkMessage (str "u1") user (str "hello");
            mkMessage (str "a1") assistant (str "hi there")] in
  let trace := [Send (str "u1") (str "hello");
                Settle 0 (str "c1") (Responds true (str "OK") (Json (Some r)))] in
  In (mkConversation (str "c1") (str "hello...") r)
     (conversationHistory (app (run env trace initialSession)))
  /\ ~ In loadingMessage r.
Proof.
  intros env r trace.
  assert (Hin : In (mkConversation (str "c1") (str "hello...") r)
                   (conversationHistory (app (run env trace initialSession))))
    by (left; reflexivity).
  split; [exact Hin|].
  apply (proj2 (persisted_logs_are_returned_sequences env trace _ Hin)).
  intros r' [<-|[]].
  intros [H|[H|[]]]; discriminate H.
Defined.

(** C10, as stated, fails: the returned sequence is stored as it is, so when
    the adapter returns a turn equal to the placeholder, the store holds it. *)
Lemma returned_placeholder_is_persisted :
  let env := Some (str "https://n8n.example/webhook/chat") in
  let r := [mkMessage (str "u1") user (str "hello"); loadingMessage] in
  let w := run env [Send (str "u1") (str "hello");
                    Settle 0 (str "c1") (Responds true (str "OK") (Json (Some r)))]
               initialSession in
  exists conv,
    In conv (conversationHistory (app w))
    /\ In loadingMessage (conv_messages conv).
Proof.
  eexists; split; [left; reflexivity|].
  right; left; reflexivity.
Qed.

(** * Further properties of the component *)

(** ** The form and the suggestion bar *)

Lemma handleSend_accepted_text (env : option jsstring) (freshId c : jsstring)
      (st : AppState) :
  truthy (trim c) = true -> isLoading st = false ->
  text (fst (handleSend env freshId c st)) = [].
Proof.
  intros Hc Hl; rewrite (handleSend_accepted env freshId c st Hc Hl); cbv zeta.
  now destruct (notConfigured env).
Qed.

(** The submit button is disabled exactly when [handleSubmit] would do
    nothing: the [disabled] attribute of the button and the guard of
    [handleSend] agree on every state. *)
Theorem submit_disabled_iff_rejected :
  forall (env : option jsstring) (freshId : jsstring) (st : AppState),
    submitDisabled st = true <-> handleSubmit env freshId st = (st, None).
Proof.
  intros env freshId st; unfold submitDisabled, handleSubmit; split.
  - intros H; unfold handleSend; now rewrite orb_comm, H.
  - intros H.
    destruct (isLoading st) eqn:Hl; [reflexivity|].
    destruct (truthy (trim (text st))) eqn:Hc; [|reflexivity].
    pose proof (handleSend_accepted_text env freshId (text st) st Hc Hl) as Ht.
    rewrite H in Ht; cbn [fst] in Ht.
    rewrite Ht in Hc; discriminate Hc.
Qed.

Lemma suggestions_not_blank (s : jsstring) :
  In s suggestions -> truthy (trim s) = true.
Proof.
  intros [<-|[<-|[<-|[]]]]; reflexivity.
Qed.

Lemma showsSuggestions_spec (st : AppState) :
  showsSuggestions st = true <-> messages st = [] /\ isLoading st = false.
Proof.
  unfold showsSuggestions; rewrite andb_true_iff, negb_true_iff.
  destruct (messages st); simpl; split; intros [H1 H2]; split;
    auto; discriminate.
Qed.

(** Whenever the suggestion bar is on screen, a click on any suggestion is
    accepted: with an endpoint configured the request carries the base log
    followed by the suggestion as a user turn, the log shows that turn and
    the placeholder, and the bar is gone; without an endpoint the log shows
    the base log and the turn, with the error. *)
Theorem suggestion_click_is_accepted :
  forall (env : option jsstring) (freshId s : jsstring) (st : AppState),
    In s suggestions ->
    showsSuggestions st = true ->
    let result := handleSuggestionClick env freshId s st in
    (notConfigured env = false ->
       snd result = Some (requestOf freshId s st)
       /\ messages (fst result) = [userMessage freshId s; loadingMessage]
       /\ showsSuggestions (fst result) = false)
    /\ (notConfigured env = true ->
        snd result = None
        /\ messages (fst result) = currentMessages st ++ [userMessage freshId s]
        /\ error (fst result) = Some (str "Chat service is not configured.")
        /\ showsSuggestions (fst result) = false).
Proof.
  intros env freshId s st Hs Hshow result; subst result.
  apply showsSuggestions_spec in Hshow as [Hm Hl].
  unfold handleSuggestionClick.
  rewrite (handleSend_accepted env freshId s st (suggestions_not_blank s Hs) Hl).
  cbv zeta; split; intros Hn; rewrite Hn; cbn [fst snd]; simpl_state.
  - rewrite Hm; repeat split.
  - repeat split.
    unfold showsSuggestions; simpl_state.
    now destruct (currentMessages st).
Qed.

Lemma suggestion_click_is_accepted_witness :
  let env := Some (str "https://n8n.example/webhook/chat") in
  let s := str "What is Helios about?" in
  snd (handleSuggestionClick env (str "u1") s initialState)
  = Some (requestOf (str "u1") s initialState).
Proof.
  intros env s.
  refine (proj1 (proj1 (suggestion_click_is_accepted env (str "u1") s
                          initialState _ eq_refl) eq_refl)).
  right; left; reflexivity.
Defined.

(** ** The endpoint *)

(** [N8N_CHAT_API] is never the empty string, so the [!N8N_CHAT_API] half of
    the check never fires; the service counts as not configured exactly when
    the environment variable is unset, empty, or the fallback text itself. *)
Theorem notConfigured_iff :
  forall env : option jsstring,
    N8N_CHAT_API env <> []
    /\ (notConfigured env = true <->
        env = None \/ env = Some []
        \/ env = Some (str "YOUR_FALLBACK_WEBHOOK_URL")).
Proof.
  intros env; split.
  - destruct env as [[|u v]|]; discriminate.
  - unfold notConfigured; destruct env as [[|u v]|].
    + split; [auto | reflexivity].
    + cbn [N8N_CHAT_API or_else truthy negb orb].
      rewrite string_eqb_eq; split.
      * intros ->; auto.
      * intros [H|[H|H]]; try discriminate H.
        exact (f_equal (fun o => match o with Some x => x | None => [] end) H).
    + split; [auto | reflexivity].
Qed.

(** ** Titles *)

(** The title of a new conversation has between 3 and 33 code units,
    whatever the adapter returned. *)
Theorem newTitle_length :
  forall resultMessages : list N8nMessage,
    3 <= List.length (newTitle resultMessages) <= 33.
Proof.
  intros [|m rest].
  - vm_compute; lia.
  - rewrite newTitle_cons, length_app, length_firstn.
    change (List.length (str "...")) with 3; lia.
Qed.

(** ** Rendering a message *)

Lemma splitOn_nonempty (sep : N) (s : jsstring) : splitOn sep s <> [].
Proof.
  destruct s as [|u s]; simpl; [discriminate|].
  destruct (N.eqb u sep); [discriminate|].
  destruct (splitOn sep s); discriminate.
Qed.

Lemma joinWith_cons (sep : N) (piece : jsstring) (rest : list jsstring) :
  rest <> [] ->
  joinWith sep (piece :: rest) = piece ++ sep :: joinWith sep rest.
Proof. destruct rest; [congruence | reflexivity]. Qed.

Lemma joinWith_splitOn (sep : N) (s : jsstring) :
  joinWith sep (splitOn sep s) = s.
Proof.
  induction s as [|u s IH]; [reflexivity|].
  cbn [splitOn]; destruct (N.eqb u sep) eqn:E.
  - apply N.eqb_eq in E; subst u.
    rewrite joinWith_cons by apply splitOn_nonempty.
    now rewrite IH.
  - pose proof (splitOn_nonempty sep s) as Hne.
    destruct (splitOn sep s) as [|piece pieces]; [congruence|].
    destruct pieces as [|piece' pieces]; cbn [joinWith] in *;
      now rewrite <- IH.
Qed.

Lemma splitOn_length (sep : N) (s : jsstring) :
  List.length (splitOn sep s) = S (count_occ N.eq_dec s sep).
Proof.
  induction s as [|u s IH]; [reflexivity|].
  cbn [splitOn count_occ]; destruct (N.eqb u sep) eqn:E.
  - apply N.eqb_eq in E; subst u.
    destruct (N.eq_dec sep sep); [|congruence].
    cbn [List.length]; now rewrite IH.
  - apply N.eqb_neq in E.
    destruct (N.eq_dec u sep); [congruence|].
    pose proof (splitOn_nonempty sep s) as Hne.
    destruct (splitOn sep s) as [|piece pieces]; [congruence|].
    exact IH.
Qed.

Lemma splitOn_pieces (sep : N) (s : jsstring) :
  Forall (fun piece => ~ In sep piece) (splitOn sep s).
Proof.
  induction s as [|u s IH]; [repeat constructor; auto|].
  cbn [splitOn]; destruct (N.eqb u sep) eqn:E.
  - constructor; [auto | exact IH].
  - apply N.eqb_neq in E.
    destruct (splitOn sep s) as [|piece pieces];
      [repeat constructor; intros [H|[]]; congruence|].
    inversion IH as [|? ? Hp Hps]; subst.
    constructor; [|exact Hps].
    intros [H|H]; [congruence | now apply Hp].
Qed.

(** A message whose id is not "loader" is rendered as a bubble of its role
    that loses no text: the lines, put back together with line feeds, are
    the content; there is one line more than there are line feeds, and no
    line contains one.  A message with the id "loader" is rendered as the
    typing indicator, whatever its role and content. *)
Theorem renderMessage_keeps_content :
  forall msg : N8nMessage,
    (msg_id msg = str "loader" -> renderMessage msg = TypingIndicator)
    /\ (msg_id msg <> str "loader" ->
        exists lines,
          renderMessage msg = MessageBubble (msg_role msg) lines
          /\ joinWith 10 lines = msg_content msg
          /\ List.length lines
             = S (count_occ N.eq_dec (msg_content msg) 10%N)
          /\ Forall (fun line => ~ In 10%N line) lines).
Proof.
  intros msg; unfold renderMessage; split.
  - intros ->; now rewrite string_eqb_refl.
  - intros Hne; rewrite (string_eqb_neq _ _ Hne).
    exists (splitOn 10 (msg_content msg)).
    split; [reflexivity|].
    split; [apply joinWith_splitOn|].
    split; [apply splitOn_length | apply splitOn_pieces].
Qed.

(** ** What a step does to the store and to the active id *)

Lemma handleSend_active (env : option jsstring) (freshId c : jsstring)
      (st : AppState) :
  activeConversationId (fst (handleSend env freshId c st))
  = activeConversationId st.
Proof.
  unfold handleSend.
  destruct (_ || _); [reflexivity|].
  now destruct (notConfigured env).
Qed.

Lemma settleAndCommit_shape (newConvId : jsstring) (o : FetchOutcome)
      (fl : InFlight) (st : AppState) :
  let st' := settleAndCommit newConvId o fl st in
  (conversationHistory st' = conversationHistory st
   /\ activeConversationId st' = activeConversationId st
   /\ returnedSequence (Settle 0 newConvId o) = [])
  \/ (exists r a,
        exchange o = inr r
        /\ truthyId (snapshotActiveId fl) = Some a
        /\ conversationHistory st'
           = map (replaceMessagesOf a r) (conversationHistory st)
        /\ activeConversationId st' = activeConversationId st)
  \/ (exists r,
        exchange o = inr r
        /\ truthyId (snapshotActiveId fl) = None
        /\ conversationHistory st'
           = {| conv_id := newConvId; conv_title := newTitle r;
                conv_messages := r |} :: conversationHistory st
        /\ activeConversationId st' = Some newConvId).
Proof.
  cbv zeta; unfold settleAndCommit.
  destruct (commit_frame st (handleSend_settle newConvId o fl st) (succeeds o))
    as (Hh & Ha & _).
  rewrite Hh, Ha; unfold handleSend_settle; cbn [returnedSequence].
  destruct (exchange o) as [e|r] eqn:Ho; [left; repeat split|right].
  destruct (truthyId (snapshotActiveId fl)) as [a|] eqn:Ht.
  - left; exists r, a.
    rewrite (handleSend_resolved_existing newConvId a r fl st Ht).
    repeat split.
  - right; exists r.
    rewrite (handleSend_resolved_new newConvId r fl st Ht).
    repeat split.
Qed.

(** Every step leaves the store alone, or rewrites the messages of the
    entries of one id, or puts one entry in front. *)
Lemma step_shape (env : option jsstring) (w : Session) (e : Event) :
  let st := app w in
  let st' := app (step env w e) in
  (conversationHistory st' = conversationHistory st
   /\ returnedSequence e = [] /\ newConvIdOf e = []
   /\ (activeConversationId st' = activeConversationId st
       \/ activeConversationId st' = None
       \/ exists convId,
            e = LoadConversation convId
            /\ activeConversationId st' = Some convId))
  \/ (exists k newConvId o,
        e = Settle k newConvId o
        /\ (conversationHistory st' = conversationHistory st
            \/ exists r a,
                 exchange o = inr r
                 /\ conversationHistory st'
                    = map (replaceMessagesOf a r) (conversationHistory st))
        /\ activeConversationId st' = activeConversationId st)
  \/ (exists k newConvId o r,
        e = Settle k newConvId o
        /\ exchange o = inr r
        /\ conversationHistory st'
           = {| conv_id := newConvId; conv_title := newTitle r;
                conv_messages := r |} :: conversationHistory st
        /\ activeConversationId st' = Some newConvId).
Proof.
  cbv zeta.
  destruct e as [|convId| |t|freshId c|k newConvId o]; cbn [step].
  - left; cbn [app].
    destruct (commit_frame (app w) (startNewConversation (app w)) false)
      as (Hh & Ha & _).
    rewrite Hh, Ha; repeat split; auto.
  - left; cbn [app].
    destruct (commit_frame (app w) (loadConversation convId (app w)) false)
      as (Hh & Ha & _).
    rewrite Hh, Ha; repeat split.
    right; right; exists convId; split; reflexivity.
  - left; repeat split; auto.
  - left; repeat split; auto.
  - left.
    pose proof (handleSend_store env freshId c (app w)) as Hs.
    pose proof (handleSend_active env freshId c (app w)) as Hact.
    destruct (handleSend env freshId c (app w)) as [st request].
    cbn [app fst] in *.
    destruct (commit_frame (app w) st false) as (Hh & Ha & _).
    rewrite Hh, Ha, Hs, Hact; repeat split; auto.
  - right.
    destruct (nth_error (inFlight w) k) as [fl|].
    + cbn [app].
      destruct (settleAndCommit_shape newConvId o fl (app w))
        as [(Hh & Ha & _)|[(r & a & Ho & _ & Hh & Ha)|(r & Ho & _ & Hh & Ha)]].
      * left; exists k, newConvId, o; repeat split; auto.
      * left; exists k, newConvId, o; repeat split; eauto.
      * right; exists k, newConvId, o, r; repeat split; auto.
    + left; exists k, newConvId, o; repeat split; auto.
Qed.

Lemma idAndTitle_replace (a : jsstring) (r : list N8nMessage)
      (h : list ConversationHistory) :
  map idAndTitle (map (replaceMessagesOf a r) h) = map idAndTitle h.
Proof.
  rewrite map_map; apply map_ext; intros conv; unfold idAndTitle.
  now destruct (replaceMessagesOf_id a r conv) as [-> ->].
Qed.

Lemma conv_id_replace (a : jsstring) (r : list N8nMessage)
      (h : list ConversationHistory) :
  map conv_id (map (replaceMessagesOf a r) h) = map conv_id h.
Proof.
  rewrite map_map; apply map_ext; intros conv.
  now destruct (replaceMessagesOf_id a r conv) as [-> _].
Qed.

(** ** Invariants along traces *)

Lemma run_cons (env : option jsstring) (e : Event) (trace : list Event)
      (w : Session) :
  run env (e :: trace) w = run env trace (step env w e).
Proof. reflexivity. Qed.

(** Entries are never removed, reordered, renamed or retitled: after any
    trace, the ids and titles of the store are those it had, in the same
    order, behind those of the entries created meanwhile, of which there are
    at most as many as there were successful responses. *)
Theorem store_only_grows_at_front :
  forall (env : option jsstring) (trace : list Event) (w : Session),
    exists added,
      map idAndTitle (conversationHistory (app (run env trace w)))
      = added ++ map idAndTitle (conversationHistory (app w))
      /\ List.length added <= List.length (returnedSequences trace).
Proof.
  intros env trace; induction trace as [|e trace IH]; intros w.
  - exists []; split; [reflexivity | apply Nat.le_refl].
  - rewrite run_cons.
    destruct (IH (step env w e)) as (added & Heq & Hlen).
    cbn [returnedSequences flat_map]; rewrite length_app.
    fold (returnedSequences trace).
    destruct (step_shape env w e)
      as [(Hh & _)
         |[(k & id & o & -> & [Hh|(r & a & Ho & Hh)] & _)
          |(k & id & o & r & -> & Ho & Hh & _)]].
    + exists added; rewrite Heq, Hh; split; [reflexivity | lia].
    + exists added; rewrite Heq, Hh; split; [reflexivity | lia].
    + exists added; rewrite Heq, Hh, idAndTitle_replace.
      split; [reflexivity | lia].
    + exists (added ++ [(id, newTitle r)]).
      rewrite Heq, Hh; cbn [map idAndTitle conv_id conv_title].
      rewrite <- app_assoc; split; [reflexivity|].
      cbn [returnedSequence]; rewrite Ho, length_app; cbn [List.length]; lia.
Qed.

Lemma run_store_ids_distinct (env : option jsstring) (trace : list Event) :
  forall w : Session,
    NoDup (map conv_id (conversationHistory (app w)) ++ newConvIds trace) ->
    NoDup (map conv_id (conversationHistory (app (run env trace w)))).
Proof.
  induction trace as [|e trace IH]; intros w Hnd.
  - cbn [newConvIds flat_map] in Hnd; now rewrite app_nil_r in Hnd.
  - rewrite run_cons; apply IH.
    cbn [newConvIds flat_map] in Hnd; fold (newConvIds trace) in Hnd.
    destruct (step_shape env w e)
      as [(Hh & _ & Hn & _)
         |[(k & id & o & -> & Hh & _)
          |(k & id & o & r & -> & Ho & Hh & _)]].
    + now rewrite Hh; rewrite Hn in Hnd.
    + cbn [newConvIdOf app] in Hnd.
      apply NoDup_remove_1 in Hnd.
      destruct Hh as [->|(r & a & _ & ->)]; [exact Hnd|].
      now rewrite conv_id_replace.
    + cbn [newConvIdOf app] in Hnd.
      apply NoDup_remove in Hnd as [Hnd Hnin].
      rewrite Hh; cbn [map conv_id app]; now constructor.
Qed.

(** When the ids [nanoid()] gives are pairwise distinct, so are the ids of
    the store in every state reached: at most one entry matches an id. *)
Theorem store_ids_distinct :
  forall (env : option jsstring) (trace : list Event),
    NoDup (newConvIds trace) ->
    NoDup (map conv_id
             (conversationHistory (app (run env trace initialSession)))).
Proof.
  intros env trace Hnd; now apply run_store_ids_distinct.
Qed.

Lemma store_ids_distinct_witness :
  let env := Some (str "https://n8n.example/webhook/chat") in
  let ok r := Responds true (str "OK") (Json (Some r)) in
  let trace := [Send (str "u1") (str "hello"); StartNewConversation;
                Send (str "u2") (str "again");
                Settle 0 (str "c1") (ok []); Settle 0 (str "c2") (ok [])] in
  NoDup (map conv_id
           (conversationHistory (app (run env trace initialSession)))).
Proof.
  intros env ok trace.
  apply (store_ids_distinct env trace).
  repeat constructor; simpl; intuition discriminate.
Defined.

Lemma findConversation_of_id (a : jsstring) (h : list ConversationHistory) :
  In a (map conv_id h) ->
  exists conv, findConversation a h = Some conv /\ conv_id conv = a.
Proof.
  unfold findConversation; induction h as [|c h IH]; [intros []|].
  cbn [map find]; intros Hin.
  destruct (string_eqb (conv_id c) a) eqn:E.
  - exists c; split; [reflexivity | now apply string_eqb_eq].
  - destruct Hin as [Hc|Hin]; [|now apply IH].
    rewrite Hc, string_eqb_refl in E; discriminate E.
Qed.

Lemma run_active_names_entry (env : option jsstring) (trace : list Event) :
  forall w : Session,
    (forall a, activeConversationId (app w) = Some a ->
               In a (map conv_id (conversationHistory (app w)))) ->
    sidebarLoads env trace w ->
    forall a,
      activeConversationId (app (run env trace w)) = Some a ->
      In a (map conv_id (conversationHistory (app (run env trace w)))).
Proof.
  induction trace as [|e trace IH]; intros w Hw Hloads; [exact Hw|].
  rewrite run_cons; destruct Hloads as [He Hloads].
  apply IH; [|exact Hloads].
  intros a.
  destruct (step_shape env w e)
    as [(Hh & _ & _ & [Ha|[Ha|(convId & -> & Ha)]])
       |[(k & id & o & -> & Hh & Ha)
        |(k & id & o & r & -> & Ho & Hh & Ha)]];
    rewrite Ha.
  - rewrite Hh; apply Hw.
  - discriminate.
  - rewrite Hh; now intros [= <-].
  - destruct Hh as [->|(r & b & _ & ->)]; [apply Hw|].
    rewrite conv_id_replace; apply Hw.
  - rewrite Hh; intros [= <-]; now left.
Qed.

(** When conversations are only selected from the sidebar, the active id is
    [null] or the id of a store entry in every state reached, so
    [find] succeeds wherever the code looks the active conversation up: the
    branches for an id without an entry are never taken. *)
Theorem active_id_names_an_entry :
  forall (env : option jsstring) (trace : list Event),
    sidebarLoads env trace initialSession ->
    forall a,
      activeConversationId (app (run env trace initialSession)) = Some a ->
      exists conv,
        findConversation a
          (conversationHistory (app (run env trace initialSession)))
        = Some conv
        /\ conv_id conv = a.
Proof.
  intros env trace Hloads a Ha.
  apply findConversation_of_id.
  apply (run_active_names_entry env trace initialSession); auto.
  intros b; discriminate.
Qed.

Lemma active_id_names_an_entry_witness :
  let env := Some (str "https://n8n.example/webhook/chat") in
  let r := [mkMessage (str "u1") user (str "hello");
            mkMessage (str "a1") assistant (str "hi there")] in
  let trace := [Send (str "u1") (str "hello");
                Settle 0 (str "c1") (Responds true (str "OK") (Json (Some r)));
                StartNewConversation; LoadConversation (str "c1")] in
  exists conv,
    findConversation (str "c1")
      (conversationHistory (app (run env trace initialSession))) = Some conv
    /\ conv_id conv = str "c1".
Proof.
  intros env r trace.
  apply (active_id_names_an_entry env trace).
  - cbn; repeat split; auto.
  - reflexivity.
Defined.

Lemma step_loading_has_pending (env : option jsstring) (w : Session)
      (e : Event) :
  (isLoading (app w) = true -> inFlight w <> []) ->
  isLoading (app (step env w e)) = true -> inFlight (step env w e) <> [].
Proof.
  intros Hw.
  destruct e as [|convId| |t|freshId c|k newConvId o]; cbn [step].
  - cbn [app inFlight].
    destruct (commit_frame (app w) (startNewConversation (app w)) false)
      as (_ & _ & _ & Hl).
    rewrite Hl; discriminate.
  - cbn [app inFlight].
    destruct (commit_frame (app w) (loadConversation convId (app w)) false)
      as (_ & _ & _ & Hl).
    rewrite Hl; exact Hw.
  - exact Hw.
  - exact Hw.
  - unfold handleSend.
    destruct (_ || _).
    + cbn [app inFlight]; rewrite commit_same_deps by reflexivity.
      rewrite app_nil_r; exact Hw.
    + destruct (notConfigured env); cbn [app inFlight].
      * rewrite commit_same_deps by reflexivity; discriminate.
      * intros _ H; now apply app_eq_nil in H as [_ H].
  - destruct (nth_error (inFlight w) k) as [fl|]; [|exact Hw].
    cbn [app inFlight]; unfold settleAndCommit.
    destruct (commit_frame (app w) (handleSend_settle newConvId o fl (app w))
                (succeeds o)) as (_ & _ & _ & Hl).
    rewrite Hl; discriminate.
Qed.

(** The loading flag is never set without a request pending: in every state
    reached from the initial one, [isLoading] implies that some request has
    not settled yet. *)
Theorem loading_has_pending_request :
  forall (env : option jsstring) (trace : list Event),
    isLoading (app (run env trace initialSession)) = true ->
    inFlight (run env trace initialSession) <> [].
Proof.
  intros env trace.
  assert (H : forall w,
             (isLoading (app w) = true -> inFlight w <> []) ->
             isLoading (app (run env trace w)) = true ->
             inFlight (run env trace w) <> []).
  { induction trace as [|e trace IH]; intros w Hw; [exact Hw|].
    rewrite run_cons; apply IH.
    now apply step_loading_has_pending. }
  apply H; discriminate.
Qed.

Lemma loading_has_pending_request_witness :
  let env := Some (str "https://n8n.example/webhook/chat") in
  inFlight (run env [Send (str "u1") (str "hello")] initialSession) <> [].
Proof.
  intros env.
  apply (loading_has_pending_request env [Send (str "u1") (str "hello")]).
  reflexivity.
Defined.

Lemma step_hasInteracted (env : option jsstring) (w : Session) (e : Event) :
  hasInteracted (app w) = true -> hasInteracted (app (step env w e)) = true.
Proof.
  assert (Hc : forall before b after,
             hasInteracted (commit before b after) = hasInteracted after).
  { intros before b after; unfold commit, activeConversationEffect.
    destruct (_ || _); [|reflexivity].
    destruct (truthyId _); [|reflexivity].
    now destruct (findConversation _ _). }
  intros Hw.
  destruct e as [|convId| |t|freshId c|k newConvId o]; cbn [step app];
    try reflexivity; try exact Hw; try (rewrite Hc; reflexivity).
  - unfold handleSend.
    destruct (_ || _); [cbn [app]; now rewrite Hc|].
    destruct (notConfigured env); cbn [app]; now rewrite Hc.
  - destruct (nth_error (inFlight w) k) as [fl|]; [|exact Hw].
    cbn [app]; unfold settleAndCommit; rewrite Hc.
    unfold handleSend_settle, handleSend_resolved, handleSend_failed, reconcile.
    destruct (exchange o); [exact Hw|].
    destruct (truthyId _); exact Hw.
Qed.

(** Once the user has interacted, the component stays in its "interacted"
    layout: no handler and no response resets [hasInteracted]. *)
Theorem hasInteracted_is_kept :
  forall (env : option jsstring) (trace : list Event) (w : Session),
    hasInteracted (app w) = true ->
    hasInteracted (app (run env trace w)) = true.
Proof.
  intros env trace; induction trace as [|e trace IH]; intros w Hw; [exact Hw|].
  rewrite run_cons; apply IH; now apply step_hasInteracted.
Qed.

Lemma hasInteracted_is_kept_witness :
  hasInteracted
    (app (run None [StartNewConversation; TypeText (str "hi")]
              (step None initialSession ToggleSidebar))) = true.
Proof.
  apply (hasInteracted_is_kept None [StartNewConversation; TypeText (str "hi")]
           (step None initialSession ToggleSidebar)).
  reflexivity.
Defined.

(** ** The typing indicator *)

Lemma In_dropNth {A : Type} (x : A) (k : nat) (l : list A) :
  In x (dropNth k l) -> In x l.
Proof.
  unfold dropNth; revert k; induction l as [|a l IH]; intros k.
  - now destruct k.
  - destruct k as [|k]; [now right|].
    cbn [firstn skipn app]; intros [H|H]; [now left | right; eauto].
Qed.

(** The log shown after an effect is the log before it, the empty log, or
    the log of a store entry. *)
Lemma commit_messages (before after : AppState) (b : bool) :
  messages (commit before b after) = messages after
  \/ messages (commit before b after) = []
  \/ exists conv,
       In conv (conversationHistory after)
       /\ messages (commit before b after) = conv_messages conv.
Proof.
  unfold commit, activeConversationEffect.
  destruct (_ || _); [|now left].
  destruct (truthyId _) as [a|]; [|right; now left].
  unfold findConversation.
  destruct (find _ _) as [conv|] eqn:E; [|now left].
  right; right; exists conv; split; [|reflexivity].
  now apply find_some in E.
Qed.

Lemma currentMessages_cases (st : AppState) :
  currentMessages st = messages st
  \/ currentMessages st = []
  \/ exists conv,
       In conv (conversationHistory st)
       /\ currentMessages st = conv_messages conv.
Proof.
  unfold currentMessages.
  destruct (truthyId _) as [a|]; [|now left].
  unfold findConversation.
  destruct (find _ _) as [conv|] eqn:E; [|right; now left].
  right; right; exists conv; split; [|reflexivity].
  now apply find_some in E.
Qed.

Lemma loaderFree_render (l : list N8nMessage) :
  loaderFree l <-> ~ In TypingIndicator (map renderMessage l).
Proof.
  unfold loaderFree; induction l as [|m l IH]; cbn [map In].
  - split; [auto | constructor].
  - unfold renderMessage at 1; split.
    + intros H [Hm|Hl]; inversion H as [|? ? Hid Hrest]; subst.
      * rewrite (string_eqb_neq _ _ Hid) in Hm; discriminate Hm.
      * now apply IH in Hrest.
    + intros H; constructor.
      * intros Hid; apply H; left.
        now rewrite Hid, string_eqb_refl.
      * apply IH; intros Hl; apply H; now right.
Qed.

Section LoaderInvariant.

Variable env : option jsstring.

Lemma storeSatisfies_commit (P : list N8nMessage -> Prop)
      (before after : AppState) (b : bool) :
  storeSatisfies P (commit before b after) -> storeSatisfies P after.
Proof.
  unfold storeSatisfies.
  now rewrite (proj1 (commit_frame before after b)).
Qed.

Lemma commit_loaderFree (before after : AppState) (b : bool) :
  storeSatisfies loaderFree after ->
  loaderFree (messages after) ->
  loaderFree (messages (commit before b after)).
Proof.
  intros Hs Hm.
  destruct (commit_messages before after b) as [->|[->|(conv & Hin & ->)]];
    [exact Hm | constructor |].
  unfold storeSatisfies in Hs; rewrite Forall_forall in Hs; now apply Hs.
Qed.

Lemma currentMessages_loaderFree (st : AppState) :
  storeSatisfies loaderFree st ->
  loaderFree (messages st) ->
  loaderFree (currentMessages st).
Proof.
  intros Hs Hm.
  destruct (currentMessages_cases st) as [->|[->|(conv & Hin & ->)]];
    [exact Hm | constructor |].
  unfold storeSatisfies in Hs; rewrite Forall_forall in Hs; now apply Hs.
Qed.

Lemma step_clean (w : Session) (e : Event) :
  eventLoaderFree e -> loaderClean w -> loaderClean (step env w e).
Proof.
  intros He (Hs & Hp & Hm).
  assert (Hs' : storeSatisfies loaderFree (app (step env w e))).
  { apply step_store; [|exact Hs].
    destruct e as [| | | | |k newConvId o]; cbn [returnedSequence];
      try (intros r []).
    intros r; destruct (exchange o) as [x|r'] eqn:Ho; [intros []|].
    intros [<-|[]]; now apply He. }
  split; [exact Hs'|].
  destruct e as [|convId| |t|freshId c|k newConvId o]; cbn [step] in *.
  - split; [exact Hp|]; intros _; cbn [app] in *.
    apply commit_loaderFree; [|constructor].
    exact (storeSatisfies_commit _ _ _ _ Hs').
  - split; [exact Hp|]; cbn [app] in *.
    destruct (commit_frame (app w) (loadConversation convId (app w)) false)
      as (_ & _ & _ & Hl).
    rewrite Hl; intros Hload.
    apply commit_loaderFree; [exact (storeSatisfies_commit _ _ _ _ Hs')|].
    now apply Hm.
  - split; [exact Hp | exact Hm].
  - split; [exact Hp | exact Hm].
  - unfold handleSend in *.
    destruct (negb (truthy (trim c)) || isLoading (app w)) eqn:Hg.
    + cbn [app inFlight] in *.
      rewrite commit_same_deps by reflexivity.
      rewrite app_nil_r; split; [exact Hp | exact Hm].
    + apply orb_false_iff in Hg as [_ Hl].
      assert (Hout : loaderFree
                       (currentMessages (app w) ++ [userMessage freshId c])).
      { unfold loaderFree; apply Forall_app; split.
        - apply currentMessages_loaderFree; auto.
        - constructor; [exact He | constructor]. }
      destruct (notConfigured env); cbn [app inFlight] in *;
        rewrite commit_same_deps by reflexivity.
      * rewrite app_nil_r; split; [exact Hp | intros _; exact Hout].
      * split; [|discriminate].
        apply Forall_app; split; [exact Hp|].
        constructor; [exact Hout | constructor].
  - destruct (nth_error (inFlight w) k) as [fl|] eqn:Hk;
      [|split; [exact Hp | exact Hm]].
    cbn [app inFlight] in *; split.
    + rewrite Forall_forall in *; intros x Hx.
      apply Hp; now apply In_dropNth in Hx.
    + intros _; unfold settleAndCommit in *.
      apply commit_loaderFree.
      * exact (storeSatisfies_commit _ _ _ _ Hs').
      * unfold handleSend_settle; simpl_state.
        destruct (exchange o) as [x|r] eqn:Ho.
        -- unfold handleSend_failed; simpl_state.
           rewrite Forall_forall in Hp; apply Hp.
           now apply nth_error_In in Hk.
        -- rewrite handleSend_resolved_messages; now apply He.
Qed.

Lemma run_clean (trace : list Event) (w : Session) :
  Forall eventLoaderFree trace ->
  loaderClean w -> loaderClean (run env trace w).
Proof.
  revert w; induction trace as [|e trace IH]; intros w Ht Hw; [exact Hw|].
  inversion Ht as [|? ? He Hrest]; subst.
  rewrite run_cons; apply IH; [exact Hrest|].
  now apply step_clean.
Qed.

(** When neither [nanoid()] nor the adapter produces the id "loader", the
    typing indicator is on screen only while the loading flag is set, and
    the placeholder is never sent to the adapter nor stored: in every state
    reached, no message of the visible log is rendered as the indicator
    unless [isLoading], and no pending request and no store entry holds a
    message with that id. *)
Theorem typing_indicator_only_while_loading :
  forall trace : list Event,
    Forall eventLoaderFree trace ->
    let w := run env trace initialSession in
    (isLoading (app w) = false ->
     ~ In TypingIndicator (map renderMessage (messages (app w))))
    /\ Forall (fun fl => loaderFree (n8nMessageList fl)) (inFlight w)
    /\ Forall (fun conv => loaderFree (conv_messages conv))
              (conversationHistory (app w)).
Proof.
  intros trace Ht w.
  assert (Hw : loaderClean w).
  { apply run_clean; [exact Ht|].
    repeat split; try constructor. }
  destruct Hw as (Hs & Hp & Hm).
  split; [|split; [exact Hp | exact Hs]].
  intros Hl; now apply loaderFree_render, Hm.
Qed.

End LoaderInvariant.

Lemma typing_indicator_only_while_loading_witness :
  let env := Some (str "https://n8n.example/webhook/chat") in
  let trace := [Send (str "u1") (str "hello");
                Settle 0 (str "c1") (Rejects NotAnError)] in
  ~ In TypingIndicator
      (map renderMessage (messages (app (run env trace initialSession)))).
Proof.
  intros env trace.
  refine (proj1 (typing_indicator_only_while_loading env trace _) eq_refl).
  repeat constructor; [discriminate | intros r; discriminate].
Defined.

(** ** How the handlers compose *)

Lemma settleAndCommit_not_loading (newConvId : jsstring) (o : FetchOutcome)
      (fl : InFlight) (st : AppState) :
  isLoading (settleAndCommit newConvId o fl st) = false.
Proof.
  unfold settleAndCommit.
  destruct (commit_frame st (handleSend_settle newConvId o fl st) (succeeds o))
    as (_ & _ & _ & ->).
  reflexivity.
Qed.

(** The component is never stuck: as soon as any pending request has settled,
    successfully or not, a submission with some text is accepted again.  With
    an endpoint it issues a request for the active conversation of that
    moment; without one it shows the error over the base log and the user
    turn. *)
Theorem submission_accepted_after_settle :
  forall (env : option jsstring) (newConvId : jsstring) (o : FetchOutcome)
         (fl : InFlight) (st : AppState) (freshId messageContent : jsstring),
    truthy (trim messageContent) = true ->
    let st' := settleAndCommit newConvId o fl st in
    (notConfigured env = false ->
       handleSend env freshId messageContent st'
       = (optimisticState freshId messageContent st',
          Some (requestOf freshId messageContent st')))
    /\ (notConfigured env = true ->
        snd (handleSend env freshId messageContent st') = None
        /\ messages (fst (handleSend env freshId messageContent st'))
           = currentMessages st' ++ [userMessage freshId messageContent]
        /\ error (fst (handleSend env freshId messageContent st'))
           = Some (str "Chat service is not configured.")).
Proof.
  intros env newConvId o fl st freshId c Hc st'.
  pose proof (settleAndCommit_not_loading newConvId o fl st) as Hl.
  fold st' in Hl.
  rewrite (handleSend_accepted env freshId c st' Hc Hl); cbv zeta.
  split; intros ->; [reflexivity | repeat split].
Qed.

Lemma submission_accepted_after_settle_witness :
  let env := Some (str "https://n8n.example/webhook/chat") in
  let fl := requestOf (str "u1") (str "hello") initialState in
  let st' := settleAndCommit (str "c1") (Rejects NotAnError) fl
               (optimisticState (str "u1") (str "hello") initialState) in
  handleSend env (str "u2") (str "again") st'
  = (optimisticState (str "u2") (str "again") st',
     Some (requestOf (str "u2") (str "again") st')).
Proof.
  intros env fl st'.
  exact (proj1 (submission_accepted_after_settle env (str "c1")
                  (Rejects NotAnError) fl
                  (optimisticState (str "u1") (str "hello") initialState)
                  (str "u2") (str "again") eq_refl) eq_refl).
Defined.

Lemma commit_startNewConversation (before st : AppState) (b : bool) :
  commit before b (startNewConversation st) = startNewConversation st.
Proof.
  unfold commit; now destruct (_ || _).
Qed.

(** "New Chat" always gives a fresh conversation, whatever was on screen or
    pending: the log, the input and the error are cleared, the loading flag is
    reset, the store and the pending requests are left alone, and the next
    submission sends the new user turn alone, for no conversation id. *)
Theorem new_chat_starts_from_empty_log :
  forall (env : option jsstring) (w : Session) (freshId messageContent : jsstring),
    truthy (trim messageContent) = true ->
    notConfigured env = false ->
    let w1 := step env w StartNewConversation in
    let w2 := step env w1 (Send freshId messageContent) in
    app w1 = startNewConversation (app w)
    /\ messages (app w1) = []
    /\ activeConversationId (app w1) = None
    /\ conversationHistory (app w1) = conversationHistory (app w)
    /\ inFlight w1 = inFlight w
    /\ messages (app w2) = [userMessage freshId messageContent; loadingMessage]
    /\ inFlight w2
       = inFlight w
         ++ [{| snapshotActiveId := None;
                n8nMessageList := [userMessage freshId messageContent] |}].
Proof.
  intros env w freshId c Hc Hn w1 w2; subst w2 w1.
  assert (H1 : step env w StartNewConversation
               = {| app := startNewConversation (app w);
                    inFlight := inFlight w |}).
  { cbn [step]; now rewrite commit_startNewConversation. }
  rewrite H1.
  rewrite (step_send_configured env
             {| app := startNewConversation (app w); inFlight := inFlight w |}
             freshId c Hc eq_refl Hn).
  cbn [app inFlight]; repeat split.
Qed.

Lemma new_chat_starts_from_empty_log_witness :
  let env := Some (str "https://n8n.example/webhook/chat") in
  let w := run env [Send (str "u1") (str "hello")] initialSession in
  let w2 := run env [StartNewConversation; Send (str "u2") (str "again")] w in
  messages (app w2) = [userMessage (str "u2") (str "again"); loadingMessage].
Proof.
  intros env w w2.
  destruct (new_chat_starts_from_empty_log env w (str "u2") (str "again")
              eq_refl eq_refl) as (_ & _ & _ & _ & _ & Hm & _).
  exact Hm.
Defined.

(** Selecting a stored conversation other than the active one shows its
    stored log, and the next submission starts from that log.  The switch
    touches neither the error, nor the loading flag, nor the input, nor the
    store, nor the pending requests. *)
Theorem loadConversation_shows_stored_log :
  forall (env : option jsstring) (w : Session) (b : jsstring)
         (conv : ConversationHistory),
    sameId (activeConversationId (app w)) (Some b) = false ->
    b <> [] ->
    findConversation b (conversationHistory (app w)) = Some conv ->
    let w' := step env w (LoadConversation b) in
    messages (app w') = conv_messages conv
    /\ currentMessages (app w') = conv_messages conv
    /\ activeConversationId (app w') = Some b
    /\ error (app w') = error (app w)
    /\ isLoading (app w') = isLoading (app w)
    /\ text (app w') = text (app w)
    /\ conversationHistory (app w') = conversationHistory (app w)
    /\ inFlight w' = inFlight w.
Proof.
  intros env w b conv Hdiff Hne Hf w'; subst w'.
  rewrite (step_load_other env w b conv Hdiff Hne Hf).
  cbn [app inFlight]; unfold currentMessages, loadConversation; simpl_state.
  rewrite (truthyId_Some _ Hne), Hf; repeat split.
Qed.

Lemma loadConversation_shows_stored_log_witness :
  let log := [mkMessage (str "m1") user (str "first");
              mkMessage (str "m2") assistant (str "one")] in
  let conv := mkConversation (str "cA") (str "first...") log in
  let w := {| app := setConversationHistory [conv] initialState;
              inFlight := [] |} in
  messages (app (step None w (LoadConversation (str "cA")))) = log.
Proof.
  intros log conv w.
  refine (proj1 (loadConversation_shows_stored_log None w (str "cA") conv
                   eq_refl _ eq_refl)).
  discriminate.
Defined.

(** Selecting the conversation that is already active does not re-hydrate:
    the effect does not run, and the state is the one before with the
    sidebar closed.  In particular a user turn left on screen by a failed
    submission stays there. *)
Theorem reselecting_active_conversation_keeps_log :
  forall (env : option jsstring) (w : Session) (b : jsstring),
    activeConversationId (app w) = Some b ->
    step env w (LoadConversation b)
    = {| app := setIsSidebarOpen false (setHasInteracted true (app w));
         inFlight := inFlight w |}.
Proof.
  intros env w b Hact; cbn [step].
  assert (Hl : loadConversation b (app w)
               = setIsSidebarOpen false (setHasInteracted true (app w))).
  { unfold loadConversation; f_equal; f_equal.
    destruct (app w); cbn in *; now subst. }
  rewrite Hl, commit_same_deps by reflexivity.
  reflexivity.
Qed.

Lemma reselecting_active_conversation_keeps_log_witness :
  let env := Some (str "https://n8n.example/webhook/chat") in
  let conv := mkConversation (str "cA") (str "first...") [] in
  let w0 := {| app := setActiveConversationId (Some (str "cA"))
                        (setConversationHistory [conv] initialState);
               inFlight := [] |} in
  let w := run env [Send (str "u1") (str "hello");
                    Settle 0 (str "c1") (Rejects NotAnError)] w0 in
  messages (app (step env w (LoadConversation (str "cA"))))
  = [userMessage (str "u1") (str "hello")].
Proof.
  intros env conv w0 w.
  rewrite (reselecting_active_conversation_keeps_log env w (str "cA") eq_refl).
  reflexivity.
Defined.

(** ** Submitting again after a failure *)

(** After a failed submission the user turn stays on screen, and the next
    submission shows both user turns and the placeholder.  What is sent
    differs: in a saved conversation (a non-empty active id) the request is
    built from the stored log, so the turn that failed is not sent again; in
    an unsaved conversation it is built from the visible log, so the turn
    that failed is sent again before the new one. *)
Theorem retry_after_failure :
  forall (env : option jsstring) (w : Session)
         (id1 c1 id2 c2 newConvId : jsstring) (o : FetchOutcome) (e : Thrown),
    notConfigured env = false ->
    truthy (trim c1) = true ->
    truthy (trim c2) = true ->
    isLoading (app w) = false ->
    exchange o = inl e ->
    let base := currentMessages (app w) in
    let w1 := step env w (Send id1 c1) in
    let w2 := step env w1 (Settle (List.length (inFlight w)) newConvId o) in
    let w3 := step env w2 (Send id2 c2) in
    messages (app w2) = base ++ [userMessage id1 c1]
    /\ messages (app w3)
       = base ++ [userMessage id1 c1; userMessage id2 c2; loadingMessage]
    /\ (forall a,
          truthyId (activeConversationId (app w)) = Some a ->
          inFlight w3
          = inFlight w
            ++ [{| snapshotActiveId := activeConversationId (app w);
                   n8nMessageList := base ++ [userMessage id2 c2] |}])
    /\ (truthyId (activeConversationId (app w)) = None ->
        inFlight w3
        = inFlight w
          ++ [{| snapshotActiveId := activeConversationId (app w);
                 n8nMessageList :=
                   base ++ [userMessage id1 c1; userMessage id2 c2] |}]).
Proof.
  intros env w id1 c1 id2 c2 newConvId o e Hn Hc1 Hc2 Hl Ho base w1 w2 w3.
  subst w3 w2 w1 base.
  rewrite (step_send_configured env w id1 c1 Hc1 Hl Hn).
  rewrite (step_settle_failed env _ _ _ newConvId o e Ho).
  set (st2 := setIsLoading false
                (handleSend_failed e (requestOf id1 c1 (app w))
                   (optimisticState id1 c1 (app w)))).
  rewrite (step_send_configured env {| app := st2; inFlight := inFlight w |}
             id2 c2 Hc2 eq_refl Hn).
  cbn [app inFlight].
  assert (Hm2 : messages st2 = currentMessages (app w) ++ [userMessage id1 c1])
    by reflexivity.
  assert (Hact : activeConversationId st2 = activeConversationId (app w))
    by reflexivity.
  assert (Hh : conversationHistory st2 = conversationHistory (app w))
    by reflexivity.
  split; [exact Hm2|]. split.
  - unfold optimisticState; simpl_state.
    rewrite Hm2, <- app_assoc; reflexivity.
  - unfold requestOf; rewrite Hact; split.
    + intros a Ha; do 3 f_equal.
      unfold currentMessages; now rewrite Hact, Hh, Ha.
    + intros Ha; do 2 f_equal.
      unfold currentMessages at 1; rewrite Hact, Ha, Hm2.
      now rewrite <- app_assoc.
Qed.

Lemma retry_after_failure_witness :
  let env := Some (str "https://n8n.example/webhook/chat") in
  let log := [mkMessage (str "m1") user (str "first");
              mkMessage (str "m2") assistant (str "one")] in
  let conv := mkConversation (str "cA") (str "first...") log in
  let w := {| app := setMessages log
                       (setActiveConversationId (Some (str "cA"))
                          (setConversationHistory [conv] initialState));
              inFlight := [] |} in
  let w3 := run env [Send (str "u1") (str "hello");
                     Settle 0 (str "c1") (Rejects NotAnError);
                     Send (str "u2") (str "again")] w in
  messages (app w3)
  = log ++ [userMessage (str "u1") (str "hello");
            userMessage (str "u2") (str "again"); loadingMessage]
  /\ map n8nMessageList (inFlight w3)
     = [log ++ [userMessage (str "u2") (str "again")]].
Proof.
  intros env log conv w w3.
  destruct (retry_after_failure env w (str "u1") (str "hello") (str "u2")
              (str "again") (str "c1") (Rejects NotAnError) NotAnError
              eq_refl eq_refl eq_refl eq_refl eq_refl)
    as (_ & Hm & Hsaved & _).
  split; [exact Hm|].
  exact (f_equal (map n8nMessageList) (Hsaved (str "cA") eq_refl)).
Defined.

(** ** The earlier revisions *)

(** Moving the text into an argument of [handleSend] changed nothing for the
    form: [handleSubmit] gives the same state and the same request as the
    [handleSubmit] of the revision before, which read the text from the
    state. *)
Theorem handleSubmit_as_previous_revision :
  forall (env : option jsstring) (freshId : jsstring) (st : AppState),
    Previous.handleSubmit env freshId st = handleSubmit env freshId st.
Proof.
  intros env freshId st.
  unfold Previous.handleSubmit, handleSubmit, handleSend.
  destruct (_ || _); [reflexivity|].
  now destruct (notConfigured env).
Qed.

Lemma effect_text (st : AppState) :
  text (activeConversationEffect st) = text st
  /\ error (activeConversationEffect st) = error st.
Proof.
  unfold activeConversationEffect.
  destruct (truthyId _); [|split; reflexivity].
  destruct (findConversation _ _); split; reflexivity.
Qed.

(** While the conversation is unsaved (no active id), the component acts on
    the log, the input, the loading flag and the error as the first revision
    did, which had no store.  A submission gives the same log, input and
    flag and sends the same sequence, and with an endpoint the same error;
    a response, successful or not, leaves the same log, input, flag and
    error, also once the re-hydration effect has run. *)
Theorem unsaved_conversation_as_first_revision :
  forall (env : option jsstring) (freshId newConvId : jsstring) (st : AppState)
         (o : FetchOutcome) (fl : InFlight) (st' : AppState),
    truthyId (activeConversationId st) = None ->
    truthyId (snapshotActiveId fl) = None ->
    newConvId <> [] ->
    let current := handleSubmit env freshId st in
    let first := Simple.handleSubmit env freshId (simpleView st) in
    Simple.messages (simpleView (fst current)) = Simple.messages (fst first)
    /\ Simple.text (simpleView (fst current)) = Simple.text (fst first)
    /\ Simple.isLoading (simpleView (fst current)) = Simple.isLoading (fst first)
    /\ option_map n8nMessageList (snd current) = snd first
    /\ (notConfigured env = false -> simpleView (fst current) = fst first)
    /\ simpleView (settleAndCommit newConvId o fl st')
       = Simple.handleSubmit_settle o (n8nMessageList fl) (simpleView st').
Proof.
  intros env freshId newConvId st o fl st' Hun Hsnap Hne current first.
  subst current first.
  assert (Hbase : currentMessages st = messages st)
    by (unfold currentMessages; now rewrite Hun).
  assert (Hsub :
    let current := handleSubmit env freshId st in
    let first := Simple.handleSubmit env freshId (simpleView st) in
    Simple.messages (simpleView (fst current)) = Simple.messages (fst first)
    /\ Simple.text (simpleView (fst current)) = Simple.text (fst first)
    /\ Simple.isLoading (simpleView (fst current)) = Simple.isLoading (fst first)
    /\ option_map n8nMessageList (snd current) = snd first
    /\ (notConfigured env = false -> simpleView (fst current) = fst first)).
  { unfold handleSubmit, handleSend, Simple.handleSubmit; cbv zeta.
    cbn [simpleView Simple.text Simple.isLoading Simple.messages].
    destruct (_ || _); [repeat split|].
    rewrite Hbase.
    destruct (notConfigured env); cbn; repeat split; try discriminate.
    - now rewrite <- app_assoc.
    - intros _; unfold simpleView; simpl_state.
      now rewrite <- app_assoc. }
  destruct Hsub as (H1 & H2 & H3 & H4 & H5).
  do 5 (split; [assumption|]).
  unfold settleAndCommit, commit, succeeds, handleSend_settle,
    Simple.handleSubmit_settle.
  destruct (exchange o) as [x|r] eqn:Ho.
  - rewrite sameId_refl; reflexivity.
  - cbn [orb].
    pose proof (effect_after_resolved newConvId r fl st' Hne) as Hm.
    destruct (effect_text
                (setIsLoading false (handleSend_resolved newConvId r fl st')))
      as [Ht He].
    destruct (effect_frame
                (setIsLoading false (handleSend_resolved newConvId r fl st')))
      as (_ & _ & Hl).
    unfold simpleView; rewrite Hm, Ht, He, Hl.
    + rewrite (handleSend_resolved_new newConvId r fl st' Hsnap).
      reflexivity.
    + intros a Ha; rewrite Hsnap in Ha; discriminate Ha.
Qed.

Lemma unsaved_conversation_as_first_revision_witness :
  let env := Some (str "https://n8n.example/webhook/chat") in
  let st := setText (str "hello") initialState in
  simpleView (fst (handleSubmit env (str "u1") st))
  = fst (Simple.handleSubmit env (str "u1") (simpleView st)).
Proof.
  intros env st.
  refine (proj1 (proj2 (proj2 (proj2 (proj2
            (unsaved_conversation_as_first_revision env (str "u1") (str "c1")
               st (Rejects NotAnError)
               (requestOf (str "u1") (str "hello") st) st
               eq_refl eq_refl _))))) eq_refl).
  discriminate.
Defined.
